(** * Column segments and the commit/undo visitor of the storage core

    A shallow embedding of
    - [src/storage/table/transient_segment.cpp] (module [TransientSegment]),
    - [src/transaction/commit_state.cpp]        (module [CommitState]) and
    - the counters, dtype names and raw-array loops of
      [tools/pythonpkg/duckdb_python.cpp] (modules [PandasScan] and
      [NumpyConversion]),
    followed by the properties proved about them.

    Conventions.  [idx_t] and [transaction_t] are unsigned 64-bit integers and
    [row_t] is a signed 64-bit integer; both are carried by [Z] and every
    arithmetic operation of the source is followed by the conversion the C++
    type system applies ([to_idx_t], [to_row_t]).  Objects reached through
    pointers are identified by an address ([ptr]); fields that the visitor
    mutates live in an explicit [World], calls on collaborators that are not
    part of these two files are appended to the world's [trace]. *)

From Stdlib Require Import ZArith String List Lia.
From stdpp Require Import base option list gmap strings.

Local Open Scope Z_scope.

(** ** Machine integers *)

Definition ptr := positive.

Definition idx_t_modulus : Z := 2 ^ 64.

(** Conversion to [uint64_t] (wrap-around modulo 2^64). *)
Definition to_idx_t (z : Z) : Z := z mod idx_t_modulus.

(** Conversion to [int64_t] (two's complement). *)
Definition to_row_t (z : Z) : Z := (z + 2 ^ 63) mod idx_t_modulus - 2 ^ 63.

Definition is_idx_t (z : Z) : Prop := 0 <= z < idx_t_modulus.
Definition is_row_t (z : Z) : Prop := - 2 ^ 63 <= z < 2 ^ 63.

(** Modelled from the spec: the constant [STANDARD_VECTOR_SIZE] is declared
    outside the files at hand; the spec fixes a row batch ("vector") at 1024
    rows. *)
Definition STANDARD_VECTOR_SIZE : Z := 1024.

(** ** Exceptions and outcomes *)

Inductive Exception :=
| NotImplementedException (msg : string)
| AssertionFailure          (* a failing D_ASSERT *)
| NullPointer               (* dereference of nullptr *)
| OutOfRange                (* access outside an array *)
| SerializationException.   (* AlterInfo::Deserialize on missing data *)

Inductive Outcome (A : Type) :=
| Returned (a : A)
| Thrown (e : Exception).
Arguments Returned {A} a.
Arguments Thrown {A} e.

(** ** Transient segments *)

Module TransientSegment.

Inductive ColumnSegmentType := TRANSIENT | PERSISTENT.

(** Modelled from the spec: segment statistics are "min/max/null presence";
    their declaration is outside the files at hand. *)
Record SegmentStatistics := {
  stats_min : Z;
  stats_max : Z;
  stats_has_null : bool
}.

(** The part of [UncompressedSegment] the segment code reads and writes. *)
Record UncompressedSegment := {
  block : Z;          (* block->BlockId() *)
  tuple_count : Z     (* idx_t *)
}.

Record PersistentSegment := {
  p_type : positive;                 (* LogicalType *)
  p_start : Z;
  p_count : Z;
  p_stats : SegmentStatistics;
  p_db : ptr;
  block_id : Z;
  p_data : UncompressedSegment;
  next : option ptr
}.

Record t := {
  type : positive;
  segment_type : ColumnSegmentType;
  start : Z;
  count : Z;
  stats : SegmentStatistics;
  db : ptr;
  data : UncompressedSegment
}.

Section Collaborators.
(** [UncompressedSegment::ToTemporary] and the [Append] of the data block
    are defined elsewhere; they are parameters of the embedding. *)
Variable ToTemporary : UncompressedSegment -> UncompressedSegment.
Variable data_Append :
  SegmentStatistics -> UncompressedSegment -> list Z -> Z -> Z ->
  Z * SegmentStatistics * UncompressedSegment.

(** [TransientSegment::TransientSegment(PersistentSegment &segment)] *)
Definition from_persistent (segment : PersistentSegment) : Outcome t :=
  let data0 :=
    if decide (block_id segment = block (p_data segment))
    then ToTemporary (p_data segment)
    else p_data segment in
  let this := {| type := p_type segment;
                 segment_type := TRANSIENT;
                 start := p_start segment;
                 count := p_count segment;
                 stats := p_stats segment;
                 db := p_db segment;
                 data := data0 |} in
  match next segment with
  | None => Returned this
  | Some _ => Thrown AssertionFailure
  end.

(** [TransientSegment::Append] *)
Definition Append (this : t) (append_data : list Z) (offset count_ : Z)
  : Z * t :=
  let '(appended, stats', data') :=
    data_Append (stats this) (data this) append_data offset count_ in
  (appended,
   {| type := type this; segment_type := segment_type this;
      start := start this;
      count := to_idx_t (count this + appended);
      stats := stats'; db := db this; data := data' |}).
End Collaborators.

(** The offset [TransientSegment::FetchRow] hands to the data block:
    [row_id - this->start], where [row_id : row_t] is converted to the
    unsigned type of [start] before the subtraction. *)
Definition FetchRow_offset (this : t) (row_id : Z) : Z :=
  to_idx_t (to_idx_t row_id - start this).

(** [TransientSegment::RevertAppend] *)
Definition RevertAppend (this : t) (start_row : Z) : t :=
  {| type := type this; segment_type := segment_type this;
     start := start this;
     count := to_idx_t (start_row - start this);
     stats := stats this; db := db this;
     data := {| block := block (data this);
                tuple_count := to_idx_t (start_row - start this) |} |}.

End TransientSegment.

(** ** Catalog entries, tables and undo-log payloads *)

(** The catalog types named by the commit code; every other value of the
    underlying byte is [OTHER_CATALOG_TYPE]. *)
Inductive CatalogType :=
| TABLE_ENTRY | SCHEMA_ENTRY | VIEW_ENTRY | SEQUENCE_ENTRY | MACRO_ENTRY
| DELETED_ENTRY
| INDEX_ENTRY | PREPARED_STATEMENT | AGGREGATE_FUNCTION_ENTRY
| SCALAR_FUNCTION_ENTRY | TABLE_FUNCTION_ENTRY | COPY_FUNCTION_ENTRY
| PRAGMA_FUNCTION_ENTRY | COLLATION_ENTRY
| OTHER_CATALOG_TYPE (raw : N).

#[global] Instance CatalogType_eq_dec : EqDecision CatalogType.
Proof. solve_decision. Defined.

(** A catalog entry with the fields the visitor reads.  [entry_set] is the
    owning [CatalogSet], [parent] the (possibly null) parent pointer. *)
#[warnings="-register-all"]
Inductive CatalogEntry := mkCatalogEntry {
  entry_addr : ptr;
  entry_type : CatalogType;
  entry_set : ptr;
  entry_name : string;
  entry_temporary : bool;
  parent : option CatalogEntry
}.

(** Deserialized [AlterInfo]; only its identity matters here. *)
Definition AlterInfo := N.

Inductive LogicalType :=
| LOGICAL_ROW_TYPE
| COLUMN_TYPE (id : N).

Module DataTableInfo.
Record t := {
  addr : ptr;
  schema : string;
  table : string;
  IsTemporary : bool
}.
End DataTableInfo.

Module DataTable.
Record t := {
  addr : ptr;
  info : DataTableInfo.t
}.
End DataTable.

Module AppendInfo.
Record t := {
  table : DataTable.t;
  start_row : Z;
  count : Z
}.
End AppendInfo.

Module DeleteInfo.
Record t := {
  table : DataTable.t;
  vinfo : ptr;            (* ChunkVectorInfo * *)
  count : Z;
  base_row : Z;
  rows : list Z           (* row_t rows[] *)
}.
End DeleteInfo.

Module ColumnData.
Record t := {
  table_info : DataTableInfo.t;
  type : LogicalType;
  column_idx : Z
}.
End ColumnData.

Module UpdateSegment.
(** [UpdateSegment::FetchCommitted] is defined outside the files at hand and
    is taken as a function of the segment: [FetchCommitted vector_index] is
    the vector it fills for the row batch [vector_index].  [WriteUpdate]
    calls its content "the updated values", the spec "the pre-image
    committed values for the affected batch"; nothing here depends on which
    they are. *)
Record t := {
  column_data : ColumnData.t;
  start : Z;
  FetchCommitted : Z -> list Z
}.
End UpdateSegment.

Module UpdateInfo.
(** The mutable [version_number] of the object at [addr] is kept in the
    world. *)
Record t := {
  addr : ptr;
  segment : UpdateSegment.t;
  vector_index : Z;
  N : Z;
  tuples : list Z         (* sel_t tuples[] *)
}.
End UpdateInfo.

(** An undo-log entry: the [UndoFlags] tag together with the payload the
    code casts [data] to under that tag.  [OTHER_UNDO_FLAG] stands for every
    tag value the switch statements do not name. *)
Inductive UndoEntry :=
| CATALOG_ENTRY (catalog_entry : CatalogEntry) (extra_data : option AlterInfo)
| INSERT_TUPLE (info : AppendInfo.t)
| DELETE_TUPLE (info : DeleteInfo.t)
| UPDATE_TUPLE (info : UpdateInfo.t)
| OTHER_UNDO_FLAG (raw : N) (data : ptr).

Inductive UndoFlags :=
| FLAG_CATALOG_ENTRY | FLAG_INSERT_TUPLE | FLAG_DELETE_TUPLE
| FLAG_UPDATE_TUPLE | FLAG_OTHER (raw : N).

Definition undo_type (e : UndoEntry) : UndoFlags :=
  match e with
  | CATALOG_ENTRY _ _ => FLAG_CATALOG_ENTRY
  | INSERT_TUPLE _ => FLAG_INSERT_TUPLE
  | DELETE_TUPLE _ => FLAG_DELETE_TUPLE
  | UPDATE_TUPLE _ => FLAG_UPDATE_TUPLE
  | OTHER_UNDO_FLAG raw _ => FLAG_OTHER raw
  end.

Definition known_kind (e : UndoEntry) : bool :=
  match e with
  | OTHER_UNDO_FLAG _ _ => false
  | _ => true
  end.

(** ** Data chunks *)

Record DataChunk := {
  chunk_types : list LogicalType;
  chunk_data : list (list Z);     (* one list per column *)
  chunk_count : Z
}.

(** ** The observable world *)

(** Calls on collaborators, in program order.  The [Log...] constructors are
    methods of the [WriteAheadLog]; [TableWriteToLog] is
    [DataTable::WriteToLog], which receives the log as its argument. *)
Inductive Event :=
| LogWriteSetTable (schema table : string)
| LogWriteAlter (info : AlterInfo)
| LogWriteCreateTable (entry : ptr)
| LogWriteCreateSchema (entry : ptr)
| LogWriteCreateView (entry : ptr)
| LogWriteCreateSequence (entry : ptr)
| LogWriteCreateMacro (entry : ptr)
| LogWriteDropTable (entry : ptr)
| LogWriteDropSchema (entry : ptr)
| LogWriteDropView (entry : ptr)
| LogWriteDropSequence (entry : ptr)
| LogWriteDropMacro (entry : ptr)
| LogWriteDelete (chunk : DataChunk)
| LogWriteUpdate (chunk : DataChunk) (column_idx : Z)
| TableWriteToLog (table : ptr) (start_row count : Z)
| TableCommitAppend (table : ptr) (commit_id start_row count : Z)
| TableRevertAppend (table : ptr) (start_row count : Z)
| VersionCommitDelete (vinfo : ptr) (commit_id : Z) (rows : list Z) (count : Z)
| EntryCommitAlter (entry : ptr) (info : AlterInfo)
| EntryCommitDrop (entry : ptr).

(** The calls that reach the log sink. *)
Definition is_log_event (ev : Event) : bool :=
  match ev with
  | TableCommitAppend _ _ _ _ | TableRevertAppend _ _ _
  | VersionCommitDelete _ _ _ _ | EntryCommitAlter _ _ | EntryCommitDrop _ => false
  | _ => true
  end.

Definition log_events (tr : list Event) : list Event := filter is_log_event tr.

(** The "switch to table" markers of a trace, in order. *)
Fixpoint switch_markers (tr : list Event) : list (string * string) :=
  match tr with
  | [] => []
  | LogWriteSetTable s t :: tr' => (s, t) :: switch_markers tr'
  | _ :: tr' => switch_markers tr'
  end.

Record World := {
  trace : list Event;
  (** catalog timestamps, keyed by owning set and entry *)
  timestamps : gmap (ptr * ptr) Z;
  (** [DataTableInfo::cardinality], keyed by the info's address *)
  cardinality : gmap ptr Z;
  (** [UpdateInfo::version_number], keyed by the info's address *)
  version_number : gmap ptr Z
}.

Definition emit (ev : Event) (w : World) : World :=
  {| trace := trace w ++ [ev]; timestamps := timestamps w;
     cardinality := cardinality w; version_number := version_number w |}.

(** Modelled from the spec: [CatalogSet::UpdateTimestamp] is defined outside
    the files at hand; the spec describes it as "a timestamp-update operation
    keyed by entry identity". *)
Definition UpdateTimestamp (set entry : ptr) (timestamp : Z) (w : World) : World :=
  {| trace := trace w; timestamps := <[(set, entry) := timestamp]> (timestamps w);
     cardinality := cardinality w; version_number := version_number w |}.

Definition set_version_number (info : ptr) (v : Z) (w : World) : World :=
  {| trace := trace w; timestamps := timestamps w;
     cardinality := cardinality w;
     version_number := <[info := v]> (version_number w) |}.

Definition add_cardinality (info : ptr) (n : Z) (w : World) : World :=
  {| trace := trace w; timestamps := timestamps w;
     cardinality := <[info := to_idx_t (cardinality w !!! info + n)]> (cardinality w);
     version_number := version_number w |}.

(** ** Arrays *)

Definition array_get (a : list Z) (i : Z) : option Z :=
  if decide (0 <= i) then a !! Z.to_nat i else None.

Definition array_set (a : list Z) (i v : Z) : option (list Z) :=
  if decide (0 <= i < Z.of_nat (length a))
  then Some (<[Z.to_nat i := v]> a)
  else None.

(** [for (i = 0; i < N; i++) row_ids[tuples[i]] = start + tuples[i];]
    run over the first [N] selection entries. *)
Fixpoint fill_row_ids (start : Z) (tuples : list Z) (row_ids : list Z)
  : option (list Z) :=
  match tuples with
  | [] => Some row_ids
  | t :: ts =>
      match array_set row_ids t (to_row_t (to_idx_t (start + t))) with
      | Some row_ids' => fill_row_ids start ts row_ids'
      | None => None
      end
  end.

(** [Slice(sel, n)] on one column: row [i] of the result is [col[sel[i]]]. *)
Fixpoint slice (col : list Z) (sel : list Z) : option (list Z) :=
  match sel with
  | [] => Some []
  | t :: ts =>
      match array_get col t, slice col ts with
      | Some v, Some vs => Some (v :: vs)
      | _, _ => None
      end
  end.

(** A freshly initialised flat vector: [STANDARD_VECTOR_SIZE] slots whose
    content is not yet meaningful. *)
Definition fresh_vector : list Z := replicate (Z.to_nat STANDARD_VECTOR_SIZE) 0.

(** ** The commit state *)

Module CommitState.

Record t := {
  log : option ptr;                   (* WriteAheadLog *, may be null *)
  commit_id : Z;
  current_table_info : option ptr     (* DataTableInfo *, initially null *)
}.

(** [CommitState::CommitState(commit_id, log)] *)
Definition make (commit_id : Z) (log : option ptr) : t :=
  {| log := log; commit_id := commit_id; current_table_info := None |}.

(** Computations that read and write [this] and the world and may throw.
    The state reached when an exception is thrown is kept: mutations made
    before the throw are not undone. *)
Definition M (A : Type) : Type := t * World -> Outcome A * (t * World).

Definition ret {A} (a : A) : M A := fun s => (Returned a, s).

Definition bind {A B} (m : M A) (k : A -> M B) : M B :=
  fun s =>
    match m s with
    | (Returned a, s') => k a s'
    | (Thrown e, s') => (Thrown e, s')
    end.

Definition throw {A} (e : Exception) : M A := fun s => (Thrown e, s).

Declare Scope commit_scope.
Delimit Scope commit_scope with commit.
Notation "x <- m ;; k" := (bind m (fun x => k))
  (at level 100, m at next level, right associativity) : commit_scope.
Notation "m ;; k" := (bind m (fun _ => k))
  (at level 100, right associativity) : commit_scope.
Local Open Scope commit_scope.

Definition this_commit_id : M Z := fun s => (Returned (commit_id (fst s)), s).

Definition effect (f : World -> World) : M unit :=
  fun s => (Returned tt, (fst s, f (snd s))).

Definition D_ASSERT (b : bool) : M unit :=
  if b then ret tt else throw AssertionFailure.

Definition D_ASSERT_log : M unit :=
  fun s => D_ASSERT (bool_decide (is_Some (log (fst s)))) s.

(** A call [log->method(...)]: dereferences [log]. *)
Definition log_call (ev : Event) : M unit :=
  fun s =>
    match log (fst s) with
    | Some _ => effect (emit ev) s
    | None => (Thrown NullPointer, s)
    end.

Definition from_array {A} (o : option A) : M A :=
  match o with
  | Some a => ret a
  | None => throw OutOfRange
  end.

(** [CommitState::SwitchTable] *)
Definition SwitchTable (table_info : DataTableInfo.t) (new_op : UndoFlags)
  : M unit :=
  fun s =>
    if decide (current_table_info (fst s) = Some (DataTableInfo.addr table_info))
    then (Returned tt, s)
    else
      (log_call (LogWriteSetTable (DataTableInfo.schema table_info)
                                  (DataTableInfo.table table_info)) ;;
       (fun s' =>
          (Returned tt,
           ({| log := log (fst s'); commit_id := commit_id (fst s');
               current_table_info := Some (DataTableInfo.addr table_info) |},
            snd s')))) s.

(** [AlterInfo::Deserialize] on the data that follows the entry pointer. *)
Definition Deserialize (dataptr : option AlterInfo) : M AlterInfo :=
  match dataptr with
  | Some info => ret info
  | None => throw SerializationException
  end.

(** [CommitState::WriteCatalogEntry] *)
Definition WriteCatalogEntry (entry : CatalogEntry) (dataptr : option AlterInfo)
  : M unit :=
  if entry_temporary entry then ret tt else
  match parent entry with
  | None => throw NullPointer
  | Some parent =>
    if entry_temporary parent then ret tt else
    D_ASSERT_log ;;
    match entry_type parent with
    | TABLE_ENTRY =>
        if decide (entry_type entry = TABLE_ENTRY) then
          info <- Deserialize dataptr ;;
          effect (emit (EntryCommitAlter (entry_addr entry) info)) ;;
          log_call (LogWriteAlter info)
        else
          log_call (LogWriteCreateTable (entry_addr parent))
    | SCHEMA_ENTRY =>
        if decide (entry_type entry = SCHEMA_ENTRY) then ret tt
        else log_call (LogWriteCreateSchema (entry_addr parent))
    | VIEW_ENTRY =>
        if decide (entry_type entry = VIEW_ENTRY) then
          info <- Deserialize dataptr ;;
          log_call (LogWriteAlter info)
        else
          log_call (LogWriteCreateView (entry_addr parent))
    | SEQUENCE_ENTRY => log_call (LogWriteCreateSequence (entry_addr parent))
    | MACRO_ENTRY => log_call (LogWriteCreateMacro (entry_addr parent))
    | DELETED_ENTRY =>
        match entry_type entry with
        | TABLE_ENTRY =>
            effect (emit (EntryCommitDrop (entry_addr entry))) ;;
            log_call (LogWriteDropTable (entry_addr entry))
        | SCHEMA_ENTRY => log_call (LogWriteDropSchema (entry_addr entry))
        | VIEW_ENTRY => log_call (LogWriteDropView (entry_addr entry))
        | SEQUENCE_ENTRY => log_call (LogWriteDropSequence (entry_addr entry))
        | MACRO_ENTRY => log_call (LogWriteDropMacro (entry_addr entry))
        | PREPARED_STATEMENT => ret tt
        | _ => throw (NotImplementedException "Don't know how to drop this type!")
        end
    | INDEX_ENTRY | PREPARED_STATEMENT | AGGREGATE_FUNCTION_ENTRY
    | SCALAR_FUNCTION_ENTRY | TABLE_FUNCTION_ENTRY | COPY_FUNCTION_ENTRY
    | PRAGMA_FUNCTION_ENTRY | COLLATION_ENTRY => ret tt
    | OTHER_CATALOG_TYPE _ =>
        throw (NotImplementedException
                 "UndoBuffer - don't know how to write this entry to the WAL")
    end
  end.

(** The chunk [CommitState::WriteDelete] fills: [count] row ids
    [base_row + rows[i]], computed in [idx_t] and stored as [row_t]. *)
Definition delete_chunk_of (info : DeleteInfo.t) : option DataChunk :=
  if decide (DeleteInfo.count info <= STANDARD_VECTOR_SIZE /\
             DeleteInfo.count info <= Z.of_nat (length (DeleteInfo.rows info)))
  then Some {| chunk_types := [LOGICAL_ROW_TYPE];
               chunk_data :=
                 [map (fun r => to_row_t (to_idx_t (DeleteInfo.base_row info + to_idx_t r)))
                      (take (Z.to_nat (DeleteInfo.count info)) (DeleteInfo.rows info))];
               chunk_count := DeleteInfo.count info |}
  else None.

(** [CommitState::WriteDelete] *)
Definition WriteDelete (info : DeleteInfo.t) : M unit :=
  D_ASSERT_log ;;
  SwitchTable (DataTable.info (DeleteInfo.table info)) FLAG_DELETE_TUPLE ;;
  chunk <- from_array (delete_chunk_of info) ;;
  log_call (LogWriteDelete chunk).

(** The chunk [CommitState::WriteUpdate] builds: column 0 holds the
    committed values fetched from the base segment, column 1 the row ids;
    both are sliced by the first [N] entries of [tuples]. *)
Definition update_chunk_of (info : UpdateInfo.t) : option DataChunk :=
  let segment := UpdateInfo.segment info in
  let column_data := UpdateSegment.column_data segment in
  let data0 := UpdateSegment.FetchCommitted segment (UpdateInfo.vector_index info) in
  let start :=
    to_idx_t (UpdateSegment.start segment
              + UpdateInfo.vector_index info * STANDARD_VECTOR_SIZE) in
  if decide (UpdateInfo.N info <= Z.of_nat (length (UpdateInfo.tuples info))) then
    let sel := take (Z.to_nat (UpdateInfo.N info)) (UpdateInfo.tuples info) in
    match fill_row_ids start sel fresh_vector with
    | Some row_ids =>
        match slice data0 sel, slice row_ids sel with
        | Some values, Some ids =>
            Some {| chunk_types := [ColumnData.type column_data; LOGICAL_ROW_TYPE];
                    chunk_data := [values; ids];
                    chunk_count := UpdateInfo.N info |}
        | _, _ => None
        end
    | None => None
    end
  else None.

(** [CommitState::WriteUpdate] *)
Definition WriteUpdate (info : UpdateInfo.t) : M unit :=
  D_ASSERT_log ;;
  let column_data := UpdateSegment.column_data (UpdateInfo.segment info) in
  SwitchTable (ColumnData.table_info column_data) FLAG_UPDATE_TUPLE ;;
  chunk <- from_array (update_chunk_of info) ;;
  log_call (LogWriteUpdate chunk (ColumnData.column_idx column_data)).

(** A call [table->WriteToLog( *log, ...)]: dereferences [log]. *)
Definition WriteToLog (table : DataTable.t) (start_row count : Z) : M unit :=
  log_call (TableWriteToLog (DataTable.addr table) start_row count).

(** [CommitState::CommitEntry<HAS_LOG>] *)
Definition CommitEntry (HAS_LOG : bool) (entry : UndoEntry) : M unit :=
  match entry with
  | CATALOG_ENTRY catalog_entry extra_data =>
      match parent catalog_entry with
      | None => throw AssertionFailure
      | Some parent =>
          commit_id <- this_commit_id ;;
          effect (UpdateTimestamp (entry_set catalog_entry) (entry_addr parent) commit_id) ;;
          (if negb (String.eqb (entry_name catalog_entry) (entry_name parent))
           then effect (UpdateTimestamp (entry_set catalog_entry)
                                        (entry_addr catalog_entry) commit_id)
           else ret tt) ;;
          if HAS_LOG then WriteCatalogEntry catalog_entry extra_data else ret tt
      end
  | INSERT_TUPLE info =>
      (if HAS_LOG && negb (DataTableInfo.IsTemporary (DataTable.info (AppendInfo.table info)))
       then WriteToLog (AppendInfo.table info) (AppendInfo.start_row info) (AppendInfo.count info)
       else ret tt) ;;
      commit_id <- this_commit_id ;;
      effect (emit (TableCommitAppend (DataTable.addr (AppendInfo.table info)) commit_id
                                      (AppendInfo.start_row info) (AppendInfo.count info)))
  | DELETE_TUPLE info =>
      (if HAS_LOG && negb (DataTableInfo.IsTemporary (DataTable.info (DeleteInfo.table info)))
       then WriteDelete info
       else ret tt) ;;
      commit_id <- this_commit_id ;;
      effect (emit (VersionCommitDelete (DeleteInfo.vinfo info) commit_id
                                        (DeleteInfo.rows info) (DeleteInfo.count info)))
  | UPDATE_TUPLE info =>
      (if HAS_LOG && negb (DataTableInfo.IsTemporary
                             (ColumnData.table_info
                                (UpdateSegment.column_data (UpdateInfo.segment info))))
       then WriteUpdate info
       else ret tt) ;;
      commit_id <- this_commit_id ;;
      effect (set_version_number (UpdateInfo.addr info) commit_id)
  | OTHER_UNDO_FLAG _ _ =>
      throw (NotImplementedException "UndoBuffer - don't know how to commit this type!")
  end.

(** [CommitState::RevertCommit] *)
Definition RevertCommit (entry : UndoEntry) : M unit :=
  transaction_id <- this_commit_id ;;
  match entry with
  | CATALOG_ENTRY catalog_entry _ =>
      match parent catalog_entry with
      | None => throw AssertionFailure
      | Some parent =>
          effect (UpdateTimestamp (entry_set catalog_entry) (entry_addr parent) transaction_id) ;;
          if negb (String.eqb (entry_name catalog_entry) (entry_name parent))
          then effect (UpdateTimestamp (entry_set catalog_entry)
                                       (entry_addr catalog_entry) transaction_id)
          else ret tt
      end
  | INSERT_TUPLE info =>
      effect (emit (TableRevertAppend (DataTable.addr (AppendInfo.table info))
                                      (AppendInfo.start_row info) (AppendInfo.count info)))
  | DELETE_TUPLE info =>
      effect (add_cardinality
                (DataTableInfo.addr (DataTable.info (DeleteInfo.table info)))
                (DeleteInfo.count info)) ;;
      effect (emit (VersionCommitDelete (DeleteInfo.vinfo info) transaction_id
                                        (DeleteInfo.rows info) (DeleteInfo.count info)))
  | UPDATE_TUPLE info =>
      effect (set_version_number (UpdateInfo.addr info) transaction_id)
  | OTHER_UNDO_FLAG _ _ =>
      throw (NotImplementedException
               "UndoBuffer - don't know how to revert commit of this type!")
  end.

(** Modelled from the spec: the loop that drives the visitor is outside the
    files at hand; the spec has the visitor "invoked once per undo-log
    entry in log order", an error of one entry propagating "through the
    whole traversal immediately". *)
Fixpoint Commit (HAS_LOG : bool) (entries : list UndoEntry) : M unit :=
  match entries with
  | [] => ret tt
  | e :: es => CommitEntry HAS_LOG e ;; Commit HAS_LOG es
  end.

End CommitState.

(** ** Reading worlds, traces and entries *)

(** The world with [evs] appended to its trace. *)
Definition extend (evs : list Event) (w : World) : World :=
  {| trace := trace w ++ evs; timestamps := timestamps w;
     cardinality := cardinality w; version_number := version_number w |}.

(** Calls on catalog entries made while a catalog change is written. *)
Definition is_hook_event (ev : Event) : bool :=
  match ev with
  | EntryCommitAlter _ _ | EntryCommitDrop _ => true
  | _ => false
  end.

(** Calls that change what readers see of a table. *)
Definition is_visibility_event (ev : Event) : bool :=
  match ev with
  | TableCommitAppend _ _ _ _ | TableRevertAppend _ _ _
  | VersionCommitDelete _ _ _ _ => true
  | _ => false
  end.

Definition table_names (ti : DataTableInfo.t) : string * string :=
  (DataTableInfo.schema ti, DataTableInfo.table ti).

(** The table [SwitchTable] is run for when [entry] is committed with a log:
    the table of a row deletion or row update on a table that is not
    temporary. *)
Definition switched_table (entry : UndoEntry) : option DataTableInfo.t :=
  match entry with
  | DELETE_TUPLE info =>
      let ti := DataTable.info (DeleteInfo.table info) in
      if DataTableInfo.IsTemporary ti then None else Some ti
  | UPDATE_TUPLE info =>
      let ti := ColumnData.table_info
                  (UpdateSegment.column_data (UpdateInfo.segment info)) in
      if DataTableInfo.IsTemporary ti then None else Some ti
  | _ => None
  end.

(** The table of every row entry that reaches the log, insertions included. *)
Definition logged_table (entry : UndoEntry) : option DataTableInfo.t :=
  match entry with
  | INSERT_TUPLE info =>
      let ti := DataTable.info (AppendInfo.table info) in
      if DataTableInfo.IsTemporary ti then None else Some ti
  | _ => switched_table entry
  end.

(** The tables a marker is due for: one whenever the table differs from the
    current one, starting from [cur]. *)
Fixpoint markers_from (cur : option ptr) (tables : list DataTableInfo.t)
  : list DataTableInfo.t :=
  match tables with
  | [] => []
  | ti :: tis =>
      if decide (cur = Some (DataTableInfo.addr ti))
      then markers_from cur tis
      else ti :: markers_from (Some (DataTableInfo.addr ti)) tis
  end.

(** No two neighbours of the list are the same table, and the first one is
    not [cur]. *)
Fixpoint no_repeat_from (cur : option ptr) (tables : list DataTableInfo.t) : Prop :=
  match tables with
  | [] => True
  | ti :: tis =>
      cur <> Some (DataTableInfo.addr ti) /\
      no_repeat_from (Some (DataTableInfo.addr ti)) tis
  end.

Definition is_NotImplemented {A} (o : Outcome A) : bool :=
  match o with
  | Thrown (NotImplementedException _) => true
  | _ => false
  end.

(** The entry types [WriteCatalogEntry] handles under a [DELETED_ENTRY]
    parent. *)
Definition drop_handled (ty : CatalogType) : bool :=
  match ty with
  | TABLE_ENTRY | SCHEMA_ENTRY | VIEW_ENTRY | SEQUENCE_ENTRY | MACRO_ENTRY
  | PREPARED_STATEMENT => true
  | _ => false
  end.

(** The parent types [WriteCatalogEntry] enumerates. *)
Definition parent_enumerated (ty : CatalogType) : bool :=
  match ty with
  | OTHER_CATALOG_TYPE _ => false
  | _ => true
  end.

(** "A dropped entry has a type outside the handled set, or the parent's
    catalog type is outside the enumerated cases." *)
Definition unsupported_for_log (entry : CatalogEntry) : bool :=
  match parent entry with
  | Some p =>
      (bool_decide (entry_type p = DELETED_ENTRY) && negb (drop_handled (entry_type entry)))
      || negb (parent_enumerated (entry_type p))
  | None => false
  end.

(** Neither the entry nor its parent is temporary. *)
Definition persisted (entry : CatalogEntry) : bool :=
  negb (entry_temporary entry) &&
  match parent entry with
  | Some p => negb (entry_temporary p)
  | None => false
  end.

(** The same undo entry on a table whose temporary flag is [b]. *)
Definition with_IsTemporary (b : bool) (entry : UndoEntry) : UndoEntry :=
  let retag (ti : DataTableInfo.t) : DataTableInfo.t :=
    {| DataTableInfo.addr := DataTableInfo.addr ti;
       DataTableInfo.schema := DataTableInfo.schema ti;
       DataTableInfo.table := DataTableInfo.table ti;
       DataTableInfo.IsTemporary := b |} in
  let retable (tb : DataTable.t) : DataTable.t :=
    {| DataTable.addr := DataTable.addr tb;
       DataTable.info := retag (DataTable.info tb) |} in
  match entry with
  | INSERT_TUPLE info =>
      INSERT_TUPLE {| AppendInfo.table := retable (AppendInfo.table info);
                      AppendInfo.start_row := AppendInfo.start_row info;
                      AppendInfo.count := AppendInfo.count info |}
  | DELETE_TUPLE info =>
      DELETE_TUPLE {| DeleteInfo.table := retable (DeleteInfo.table info);
                      DeleteInfo.vinfo := DeleteInfo.vinfo info;
                      DeleteInfo.count := DeleteInfo.count info;
                      DeleteInfo.base_row := DeleteInfo.base_row info;
                      DeleteInfo.rows := DeleteInfo.rows info |}
  | UPDATE_TUPLE info =>
      let seg := UpdateInfo.segment info in
      let cd := UpdateSegment.column_data seg in
      UPDATE_TUPLE
        {| UpdateInfo.addr := UpdateInfo.addr info;
           UpdateInfo.segment :=
             {| UpdateSegment.column_data :=
                  {| ColumnData.table_info := retag (ColumnData.table_info cd);
                     ColumnData.type := ColumnData.type cd;
                     ColumnData.column_idx := ColumnData.column_idx cd |};
                UpdateSegment.start := UpdateSegment.start seg;
                UpdateSegment.FetchCommitted := UpdateSegment.FetchCommitted seg |};
           UpdateInfo.vector_index := UpdateInfo.vector_index info;
           UpdateInfo.N := UpdateInfo.N info;
           UpdateInfo.tuples := UpdateInfo.tuples info |}
  | _ => entry
  end.

(** The timestamps after a catalog change and its parent (the change itself
    only when its name differs from the parent's) are stamped with [id]. *)
Definition stamp_entry (catalog_entry parent : CatalogEntry) (id : Z)
    (ts : gmap (ptr * ptr) Z) : gmap (ptr * ptr) Z :=
  let ts' := <[(entry_set catalog_entry, entry_addr parent) := id]> ts in
  if negb (String.eqb (entry_name catalog_entry) (entry_name parent))
  then <[(entry_set catalog_entry, entry_addr catalog_entry) := id]> ts'
  else ts'.

Definition stamp_world (catalog_entry parent : CatalogEntry) (id : Z)
    (w : World) : World :=
  {| trace := trace w;
     timestamps := stamp_entry catalog_entry parent id (timestamps w);
     cardinality := cardinality w; version_number := version_number w |}.

(** The commit state once [SwitchTable] has run for [ti], and the marker it
    emitted on the way. *)
Definition switched_state (ti : DataTableInfo.t) (this : CommitState.t)
  : CommitState.t :=
  {| CommitState.log := CommitState.log this;
     CommitState.commit_id := CommitState.commit_id this;
     CommitState.current_table_info := Some (DataTableInfo.addr ti) |}.

Definition marker_for (this : CommitState.t) (ti : DataTableInfo.t) : list Event :=
  if decide (CommitState.current_table_info this = Some (DataTableInfo.addr ti))
  then []
  else [LogWriteSetTable (DataTableInfo.schema ti) (DataTableInfo.table ti)].


(** A row insertion that does not reach the log (its table is temporary);
    every other kind of entry qualifies. *)
Definition no_logged_insert (entry : UndoEntry) : Prop :=
  match entry with
  | INSERT_TUPLE info =>
      DataTableInfo.IsTemporary (DataTable.info (AppendInfo.table info)) = true
  | _ => True
  end.

(** What readers can see of a world: the visibility calls made so far and
    the timestamps, cardinalities and version numbers. *)
Definition visibility (w : World)
  : list Event * gmap (ptr * ptr) Z * gmap ptr Z * gmap ptr Z :=
  (filter is_visibility_event (trace w), timestamps w, cardinality w,
   version_number w).

(** The world with the log-sink calls erased from its trace. *)
Definition without_log (w : World) : World :=
  {| trace := filter (fun ev => negb (is_log_event ev)) (trace w);
     timestamps := timestamps w; cardinality := cardinality w;
     version_number := version_number w |}.

(** ** Sample objects *)

Module Sample.

Definition info_A : DataTableInfo.t :=
  {| DataTableInfo.addr := 1%positive; DataTableInfo.schema := "main";
     DataTableInfo.table := "a"; DataTableInfo.IsTemporary := false |}.

Definition info_B : DataTableInfo.t :=
  {| DataTableInfo.addr := 2%positive; DataTableInfo.schema := "main";
     DataTableInfo.table := "b"; DataTableInfo.IsTemporary := false |}.

Definition table_A : DataTable.t :=
  {| DataTable.addr := 11%positive; DataTable.info := info_A |}.

Definition table_B : DataTable.t :=
  {| DataTable.addr := 12%positive; DataTable.info := info_B |}.

Definition delete_from (table : DataTable.t) : DeleteInfo.t :=
  {| DeleteInfo.table := table; DeleteInfo.vinfo := 21%positive;
     DeleteInfo.count := 2; DeleteInfo.base_row := 2048;
     DeleteInfo.rows := [3; 5] |}.

Definition insert_into (table : DataTable.t) : AppendInfo.t :=
  {| AppendInfo.table := table; AppendInfo.start_row := 0;
     AppendInfo.count := 4 |}.

Definition update_of (ti : DataTableInfo.t) : UpdateInfo.t :=
  {| UpdateInfo.addr := 31%positive;
     UpdateInfo.segment :=
       {| UpdateSegment.column_data :=
            {| ColumnData.table_info := ti;
               ColumnData.type := COLUMN_TYPE 1;
               ColumnData.column_idx := 3 |};
          UpdateSegment.start := 0;
          UpdateSegment.FetchCommitted :=
            fun _ => map Z.of_nat (seq 0 (Z.to_nat STANDARD_VECTOR_SIZE)) |};
     UpdateInfo.vector_index := 1;
     UpdateInfo.N := 2;
     UpdateInfo.tuples := [4; 9; 0] |}.

(** A table "t" dropped: the entry is the table, its parent the tombstone. *)
Definition dropped (ty : CatalogType) (temporary : bool) : CatalogEntry :=
  {| entry_addr := 41%positive; entry_type := ty; entry_set := 40%positive;
     entry_name := "t"; entry_temporary := temporary;
     parent := Some {| entry_addr := 42%positive; entry_type := DELETED_ENTRY;
                       entry_set := 40%positive; entry_name := "t";
                       entry_temporary := temporary; parent := None |} |}.

(** A table renamed from "t1" to "t2". *)
Definition renamed_parent : CatalogEntry :=
  {| entry_addr := 52%positive; entry_type := TABLE_ENTRY;
     entry_set := 50%positive; entry_name := "t2";
     entry_temporary := false; parent := None |}.

Definition renamed : CatalogEntry :=
  {| entry_addr := 51%positive; entry_type := TABLE_ENTRY;
     entry_set := 50%positive; entry_name := "t1";
     entry_temporary := false; parent := Some renamed_parent |}.

Definition transaction_id : Z := 4611686018427388000 + 7.

Definition empty_world : World :=
  {| trace := []; timestamps := ∅; cardinality := ∅; version_number := ∅ |}.

(** The world in which the renaming transaction has stamped both entries. *)
Definition renaming_world : World :=
  {| trace := [];
     timestamps := <[(50%positive, 51%positive) := transaction_id]>
                     (<[(50%positive, 52%positive) := transaction_id]> ∅);
     cardinality := ∅; version_number := ∅ |}.

Definition committer : CommitState.t := CommitState.make 100 (Some 1%positive).

(** Deletions and updates touching the tables A, A, B, A. *)
Definition log_AABA : list UndoEntry :=
  [DELETE_TUPLE (delete_from table_A); UPDATE_TUPLE (update_of info_A);
   DELETE_TUPLE (delete_from table_B); DELETE_TUPLE (delete_from table_A)].

(** A deletion on A, an insertion into B, a deletion on A. *)
Definition log_ABA_insert : list UndoEntry :=
  [DELETE_TUPLE (delete_from table_A); INSERT_TUPLE (insert_into table_B);
   DELETE_TUPLE (delete_from table_A)].

Definition persistent : TransientSegment.PersistentSegment :=
  {| TransientSegment.p_type := 1%positive;
     TransientSegment.p_start := 2048;
     TransientSegment.p_count := 1000;
     TransientSegment.p_stats :=
       {| TransientSegment.stats_min := -5; TransientSegment.stats_max := 90;
          TransientSegment.stats_has_null := true |};
     TransientSegment.p_db := 1%positive;
     TransientSegment.block_id := 17;
     TransientSegment.p_data :=
       {| TransientSegment.block := 17; TransientSegment.tuple_count := 1000 |};
     TransientSegment.next := None |}.

(** [ToTemporary] moving the data to an in-memory block. *)
Definition to_memory (d : TransientSegment.UncompressedSegment)
  : TransientSegment.UncompressedSegment :=
  {| TransientSegment.block := 4611686018427388000;
     TransientSegment.tuple_count := TransientSegment.tuple_count d |}.

Definition transient : TransientSegment.t :=
  {| TransientSegment.type := 1%positive;
     TransientSegment.segment_type := TransientSegment.TRANSIENT;
     TransientSegment.start := 2048;
     TransientSegment.count := 1000;
     TransientSegment.stats :=
       {| TransientSegment.stats_min := -5; TransientSegment.stats_max := 90;
          TransientSegment.stats_has_null := true |};
     TransientSegment.db := 1%positive;
     TransientSegment.data :=
       {| TransientSegment.block := 4611686018427388000;
          TransientSegment.tuple_count := 1000 |} |}.

End Sample.

(** ** The Python binding: pandas scans and NumPy conversion

    The parts of [tools/pythonpkg/duckdb_python.cpp] that work on counters,
    strings and raw arrays.  A raw array reached through a pointer is a
    function from indices to cells; [store] is the assignment [a[i] = v]. *)

Definition store {T} (a : Z -> T) (i : Z) (v : T) : Z -> T :=
  fun j => if decide (j = i) then v else a j.

(** Conversion to [int] (32 bits, two's complement). *)
Definition to_int (z : Z) : Z := (z + 2 ^ 31) mod 2 ^ 32 - 2 ^ 31.

Module PandasScan.

Inductive PandasType :=
| BOOLEAN | TINYINT | SMALLINT | INTEGER | BIGINT
| UTINYINT | USMALLINT | UINTEGER | UBIGINT
| FLOAT | DOUBLE | TIMESTAMP | VARCHAR.

(** The [LogicalType] constants the scan assigns to columns. *)
Inductive SqlType :=
| SQL_BOOLEAN | SQL_TINYINT | SQL_SMALLINT | SQL_INTEGER | SQL_BIGINT
| SQL_UTINYINT | SQL_USMALLINT | SQL_UINTEGER | SQL_UBIGINT
| SQL_FLOAT | SQL_DOUBLE | SQL_TIMESTAMP | SQL_VARCHAR.

Inductive Result (A : Type) :=
| Ok (a : A)
| runtime_error (msg : string).
Arguments Ok {A} a.
Arguments runtime_error {A} msg.

(** [PandasScanFunction::ConvertPandasType]: the pair of output parameters
    [(duckdb_col_type, pandas_type)]. *)
Definition ConvertPandasType (col_type : string) : Result (SqlType * PandasType) :=
  if String.eqb col_type "bool" then Ok (SQL_BOOLEAN, BOOLEAN)
  else if String.eqb col_type "uint8" || String.eqb col_type "Uint8"
  then Ok (SQL_UTINYINT, UTINYINT)
  else if String.eqb col_type "uint16" || String.eqb col_type "Uint16"
  then Ok (SQL_USMALLINT, USMALLINT)
  else if String.eqb col_type "uint32" || String.eqb col_type "Uint32"
  then Ok (SQL_UINTEGER, UINTEGER)
  else if String.eqb col_type "uint64" || String.eqb col_type "Uint64"
  then Ok (SQL_UBIGINT, UBIGINT)
  else if String.eqb col_type "int8" || String.eqb col_type "Int8"
  then Ok (SQL_TINYINT, TINYINT)
  else if String.eqb col_type "int16" || String.eqb col_type "Int16"
  then Ok (SQL_SMALLINT, SMALLINT)
  else if String.eqb col_type "int32" || String.eqb col_type "Int32"
  then Ok (SQL_INTEGER, INTEGER)
  else if String.eqb col_type "int64" || String.eqb col_type "Int64"
  then Ok (SQL_BIGINT, BIGINT)
  else if String.eqb col_type "float32" then Ok (SQL_FLOAT, FLOAT)
  else if String.eqb col_type "float64" then Ok (SQL_DOUBLE, DOUBLE)
  else if String.eqb col_type "object" || String.eqb col_type "string"
  then Ok (SQL_VARCHAR, VARCHAR)
  else runtime_error ("unsupported python type " +:+ col_type).

Definition PANDAS_PARTITION_COUNT : Z := to_idx_t (50 * STANDARD_VECTOR_SIZE).

Record PandasScanState := {
  start : Z;
  end_ : Z;                (* the field [end] *)
  column_ids : list Z
}.

(** [PandasScanFunction::PandasScanMaxThreads] *)
Definition PandasScanMaxThreads (row_count : Z) : Z :=
  to_idx_t (row_count / PANDAS_PARTITION_COUNT + 1).

(** [PandasScanFunction::PandasScanParallelStateNext], run under the lock of
    the parallel state: the verdict, the operator state and the shared
    [position] it leaves behind. *)
Definition PandasScanParallelStateNext
    (row_count : Z) (state : PandasScanState) (position : Z)
  : bool * PandasScanState * Z :=
  if decide (row_count <= position) then (false, state, position)
  else
    let position1 := to_idx_t (position + PANDAS_PARTITION_COUNT) in
    let position2 := if decide (row_count < position1) then row_count else position1 in
    (true,
     {| start := position; end_ := position2; column_ids := column_ids state |},
     position2).

(** [PandasScanFunction::PandasScanParallelInit]: no state ([nullptr]) when
    nothing is left to hand out. *)
Definition PandasScanParallelInit
    (row_count : Z) (column_ids : list Z) (position : Z)
  : option PandasScanState * Z :=
  let result := {| start := 0; end_ := 0; column_ids := column_ids |} in
  match PandasScanParallelStateNext row_count result position with
  | (true, result', position') => (Some result', position')
  | (false, _, position') => (None, position')
  end.

(** [PandasScanFunction::PandasProgress] *)
Definition PandasProgress (row_count lines_read : Z) : Z :=
  if decide (row_count = 0) then 100
  else to_int (to_idx_t (lines_read * 100) / row_count).

(** The ranges successive calls of [PandasScanParallelStateNext] hand out,
    until one returns false or [fuel] calls were made. *)
Fixpoint handed_out (fuel : nat) (row_count : Z) (state : PandasScanState)
    (position : Z) : list (Z * Z) :=
  match fuel with
  | O => []
  | S fuel' =>
      match PandasScanParallelStateNext row_count state position with
      | (true, state', position') =>
          (start state', end_ state') :: handed_out fuel' row_count state' position'
      | (false, _, _) => []
      end
  end.

(** What [PandasScanFunc] puts into a column of the output chunk: the row
    ids [start, start + count), or the rows [offset, offset + count) of the
    pandas column [col_idx] as [ConvertVector] scans them. *)
Inductive OutputColumn :=
| Sequence (start count : Z)
| ConvertVector (col_idx count offset : Z).

Record OutputChunk := {
  out_cardinality : Z;
  out_data : list OutputColumn
}.

Section PandasScanFunc.
(** The column id that stands for the row id; declared outside this file. *)
Variable COLUMN_IDENTIFIER_ROW_ID : Z.

(** [PandasScanFunction::PandasScanFunc]: the operator state, the shared
    [lines_read] counter and the output chunk, [None] when the function
    returns without touching it. *)
Definition PandasScanFunc (state : PandasScanState) (lines_read : Z)
  : PandasScanState * Z * option OutputChunk :=
  if decide (end_ state <= start state) then (state, lines_read, None)
  else
    let this_count :=
      Z.min (to_idx_t STANDARD_VECTOR_SIZE) (to_idx_t (end_ state - start state)) in
    ({| start := to_idx_t (start state + this_count); end_ := end_ state;
        column_ids := column_ids state |},
     to_idx_t (lines_read + this_count),
     Some {| out_cardinality := this_count;
             out_data :=
               map (fun col_idx =>
                      if decide (col_idx = COLUMN_IDENTIFIER_ROW_ID)
                      then Sequence (start state) this_count
                      else ConvertVector col_idx this_count (start state))
                   (column_ids state) |}).

(** The chunks successive calls of [PandasScanFunc] produce, each with the
    row it starts at, until a call produces none or [fuel] calls were made;
    with the state and the counter left behind. *)
Fixpoint scanned (fuel : nat) (state : PandasScanState) (lines_read : Z)
  : list (Z * OutputChunk) * PandasScanState * Z :=
  match fuel with
  | O => ([], state, lines_read)
  | S fuel' =>
      match PandasScanFunc state lines_read with
      | (state', lines_read', Some chunk) =>
          let '(chunks, state'', lines_read'') := scanned fuel' state' lines_read' in
          ((start state, chunk) :: chunks, state'', lines_read'')
      | (state', lines_read', None) => ([], state', lines_read')
      end
  end.
End PandasScanFunc.

(** A flat vector as the scan leaves it: the cells its data pointer reaches
    and the validity of its rows. *)
Record FlatVector (T : Type) := {
  cells : Z -> T;
  row_valid : Z -> bool
}.
Arguments cells {T} _.
Arguments row_valid {T} _.

(** [FlatVector::SetNull(out, i, true)] *)
Definition SetNull {T} (out : FlatVector T) (i : Z) : FlatVector T :=
  {| cells := cells out; row_valid := store (row_valid out) i false |}.

(** [ScanPandasColumn<T>]: the vector's data pointer is set to
    [src_ptr + offset]; no cell is copied. *)
Definition ScanPandasColumn {T} (numpy_col : Z -> T) (count offset : Z)
    (out : FlatVector T) : FlatVector T :=
  {| cells := fun i => numpy_col (offset + i); row_valid := row_valid out |}.

(** The loop of [ScanPandasNumeric] over the mask, from row [i] for [n]
    rounds. *)
Fixpoint apply_mask {T} (mask : Z -> bool) (offset : Z) (i : Z) (n : nat)
    (out : FlatVector T) : FlatVector T :=
  match n with
  | O => out
  | S n' =>
      let is_null := mask (to_idx_t (offset + i)) in
      apply_mask mask offset (i + 1) n' (if is_null then SetNull out i else out)
  end.

(** [ScanPandasNumeric<T>]; [mask] is [bind_data.mask], absent for a column
    without one. *)
Definition ScanPandasNumeric {T} (numpy_col : Z -> T) (mask : option (Z -> bool))
    (count offset : Z) (out : FlatVector T) : FlatVector T :=
  let out1 := ScanPandasColumn numpy_col count offset out in
  match mask with
  | Some m => apply_mask m offset 0 (Z.to_nat count) out1
  | None => out1
  end.

(** The column type that belongs to a pandas type. *)
Definition sql_of_pandas (ty : PandasType) : SqlType :=
  match ty with
  | BOOLEAN => SQL_BOOLEAN | TINYINT => SQL_TINYINT | SMALLINT => SQL_SMALLINT
  | INTEGER => SQL_INTEGER | BIGINT => SQL_BIGINT
  | UTINYINT => SQL_UTINYINT | USMALLINT => SQL_USMALLINT
  | UINTEGER => SQL_UINTEGER | UBIGINT => SQL_UBIGINT
  | FLOAT => SQL_FLOAT | DOUBLE => SQL_DOUBLE
  | TIMESTAMP => SQL_TIMESTAMP | VARCHAR => SQL_VARCHAR
  end.

(** The dtype names [ConvertPandasType] knows. *)
Definition known_dtypes : list string :=
  ["bool"; "uint8"; "Uint8"; "uint16"; "Uint16"; "uint32"; "Uint32";
   "uint64"; "Uint64"; "int8"; "Int8"; "int16"; "Int16"; "int32"; "Int32";
   "int64"; "Int64"; "float32"; "float64"; "object"; "string"]%string.

(** The rows of the ranges [(first, last)], in order. *)
Definition rows_of (ranges : list (Z * Z)) : list Z :=
  concat (map (fun r => seqZ (fst r) (snd r - fst r)) ranges).

End PandasScan.

Module NumpyConversion.

(** The pieces of [VectorData] a conversion reads: the cells, the selection
    vector ([sel->get_index]) and the validity mask, absent when every row is
    valid. *)
Record VectorData (DUCKDB_T : Type) := {
  data : Z -> DUCKDB_T;
  sel : Z -> Z;
  validity : option (Z -> bool)
}.
Arguments data {DUCKDB_T} v.
Arguments sel {DUCKDB_T} v.
Arguments validity {DUCKDB_T} v.

Section ConvertColumn.
Context {DUCKDB_T NUMPY_T : Type}.
(** The members [ConvertValue] and [NullValue] of the [CONVERT] argument. *)
Variable ConvertValue : DUCKDB_T -> NUMPY_T.
Variable NullValue : NUMPY_T.

(** The loop run when some row may be invalid, from index [i] for [n]
    rounds. *)
Fixpoint convert_checked (valid : Z -> bool) (target_offset : Z)
    (idata : VectorData DUCKDB_T) (i : Z) (n : nat)
    (out : Z -> NUMPY_T) (mask : Z -> bool) : (Z -> NUMPY_T) * (Z -> bool) :=
  match n with
  | O => (out, mask)
  | S n' =>
      let src_idx := sel idata i in
      let offset := to_idx_t (target_offset + i) in
      if valid src_idx then
        convert_checked valid target_offset idata (i + 1) n'
          (store out offset (ConvertValue (data idata src_idx)))
          (store mask offset false)
      else
        convert_checked valid target_offset idata (i + 1) n'
          (store out offset NullValue)
          (store mask offset true)
  end.

(** The loop run when every row is valid. *)
Fixpoint convert_all_valid (target_offset : Z) (idata : VectorData DUCKDB_T)
    (i : Z) (n : nat) (out : Z -> NUMPY_T) (mask : Z -> bool)
  : (Z -> NUMPY_T) * (Z -> bool) :=
  match n with
  | O => (out, mask)
  | S n' =>
      let src_idx := sel idata i in
      let offset := to_idx_t (target_offset + i) in
      convert_all_valid target_offset idata (i + 1) n'
        (store out offset (ConvertValue (data idata src_idx)))
        (store mask offset false)
  end.

(** [ConvertColumn<DUCKDB_T, NUMPY_T, CONVERT>]: the result and the target
    arrays it leaves behind. *)
Definition ConvertColumn (target_offset : Z) (target_data : Z -> NUMPY_T)
    (target_mask : Z -> bool) (idata : VectorData DUCKDB_T) (count : Z)
  : bool * (Z -> NUMPY_T) * (Z -> bool) :=
  match validity idata with
  | Some valid =>
      let '(out, mask) :=
        convert_checked valid target_offset idata 0 (Z.to_nat count)
                        target_data target_mask in
      (true, out, mask)
  | None =>
      let '(out, mask) :=
        convert_all_valid target_offset idata 0 (Z.to_nat count)
                          target_data target_mask in
      (false, out, mask)
  end.

End ConvertColumn.

(** [validity.RowIsValid] *)
Definition row_is_valid {DUCKDB_T} (idata : VectorData DUCKDB_T) (idx : Z) : bool :=
  match validity idata with
  | Some valid => valid idx
  | None => true
  end.

(** The cell a conversion stores for row [i] of the input: the converted
    value of the selected source cell, or the null value when that cell is
    not valid. *)
Definition converted_cell {DUCKDB_T NUMPY_T}
    (ConvertValue : DUCKDB_T -> NUMPY_T) (NullValue : NUMPY_T)
    (idata : VectorData DUCKDB_T) (i : Z) : NUMPY_T :=
  if row_is_valid idata (sel idata i)
  then ConvertValue (data idata (sel idata i))
  else NullValue.

End NumpyConversion.

(** ** Reading the remaining commit and segment code *)

(** The entry belongs to a temporary table, or is a temporary catalog entry
    or the child of one: the cases in which the commit skips the log. *)
Definition temporary_entry (entry : UndoEntry) : bool :=
  match entry with
  | CATALOG_ENTRY ce _ =>
      entry_temporary ce ||
      match parent ce with
      | Some p => entry_temporary p
      | None => false
      end
  | INSERT_TUPLE info =>
      DataTableInfo.IsTemporary (DataTable.info (AppendInfo.table info))
  | DELETE_TUPLE info =>
      DataTableInfo.IsTemporary (DataTable.info (DeleteInfo.table info))
  | UPDATE_TUPLE info =>
      DataTableInfo.IsTemporary
        (ColumnData.table_info (UpdateSegment.column_data (UpdateInfo.segment info)))
  | OTHER_UNDO_FLAG _ _ => false
  end.

(** The delete record as a reader of the log sees it: the first [count]
    deleted rows as table row ids [base_row + offset]. *)
Definition delete_record (info : DeleteInfo.t) : DataChunk :=
  {| chunk_types := [LOGICAL_ROW_TYPE];
     chunk_data :=
       [map (fun r => DeleteInfo.base_row info + r)
            (take (Z.to_nat (DeleteInfo.count info)) (DeleteInfo.rows info))];
     chunk_count := DeleteInfo.count info |}.


(** The fields of the commit state and of the world that only some entry
    kinds may touch. *)
Definition same_identity (this this' : CommitState.t) : Prop :=
  CommitState.log this' = CommitState.log this /\
  CommitState.commit_id this' = CommitState.commit_id this.

(** ** More sample objects *)

Module MoreSamples.

Definition info_T : DataTableInfo.t :=
  {| DataTableInfo.addr := 3%positive; DataTableInfo.schema := "temp";
     DataTableInfo.table := "t"; DataTableInfo.IsTemporary := true |}.

Definition table_T : DataTable.t :=
  {| DataTable.addr := 13%positive; DataTable.info := info_T |}.

(** The world in which the updating transaction has stamped its entry. *)
Definition updating_world : World :=
  {| trace := []; timestamps := ∅; cardinality := ∅;
     version_number := <[31%positive := Sample.transaction_id]> ∅ |}.

(** A data block that takes everything it is given and counts it. *)
Definition take_all (stats : TransientSegment.SegmentStatistics)
    (data : TransientSegment.UncompressedSegment) (append_data : list Z)
    (offset count : Z)
  : Z * TransientSegment.SegmentStatistics * TransientSegment.UncompressedSegment :=
  (count,
   {| TransientSegment.stats_min := TransientSegment.stats_min stats;
      TransientSegment.stats_max := 1000;
      TransientSegment.stats_has_null := TransientSegment.stats_has_null stats |},
   {| TransientSegment.block := TransientSegment.block data;
      TransientSegment.tuple_count := TransientSegment.tuple_count data + count |}).

Definition scan_state : PandasScan.PandasScanState :=
  {| PandasScan.start := 0; PandasScan.end_ := 2500;
     PandasScan.column_ids := [7; 0] |}.

(** Three source rows, the second one null. *)
Definition three_rows : NumpyConversion.VectorData Z :=
  {| NumpyConversion.data := fun i => 10 * i;
     NumpyConversion.sel := fun i => i;
     NumpyConversion.validity := Some (fun i => negb (i =? 1)) |}.

End MoreSamples.

(** * Properties *)

(** ** Machine integers *)

Lemma to_idx_t_small z : is_idx_t z -> to_idx_t z = z.
Proof. unfold is_idx_t, to_idx_t. intros H. apply Z.mod_small. exact H. Qed.

Lemma to_idx_t_range z : is_idx_t (to_idx_t z).
Proof.
  unfold is_idx_t, to_idx_t. apply Z.mod_pos_bound.
  unfold idx_t_modulus. lia.
Qed.


Lemma to_idx_t_sub_l a b : to_idx_t (to_idx_t a - b) = to_idx_t (a - b).
Proof. unfold to_idx_t. apply Zminus_mod_idemp_l. Qed.


Lemma to_idx_t_wrap_once z :
  - idx_t_modulus <= z < 0 -> to_idx_t z = z + idx_t_modulus.
Proof.
  intros H. unfold to_idx_t.
  symmetry. apply (Z.mod_unique z idx_t_modulus (-1)); lia.
Qed.

Lemma to_row_t_small z : is_row_t z -> to_row_t z = z.
Proof.
  unfold is_row_t, to_row_t, idx_t_modulus. intros H.
  rewrite Z.mod_small; lia.
Qed.

(** ** Transient segments *)

Section TransientSegmentFacts.
Import TransientSegment.



(** C5: promoting a persistent segment without successor yields a
    transient segment with the same start row, the same row count and the
    same statistics, whatever [ToTemporary] does to the data block. *)
Theorem promotion_preserves_range_and_stats
    (ToTemporary : UncompressedSegment -> UncompressedSegment)
    (segment : PersistentSegment) :
  next segment = None ->
  exists this,
    from_persistent ToTemporary segment = Returned this /\
    segment_type this = TRANSIENT /\
    start this = p_start segment /\
    count this = p_count segment /\
    stats this = p_stats segment.
Proof.
  intros Hnext. unfold from_persistent. rewrite Hnext.
  eexists. split; [reflexivity|]. simpl. auto.
Qed.

(** C6: [RevertAppend start_row] with [start <= start_row] sets the row
    count and the data block's tuple count to [start_row - start]; a second
    application with the same argument changes nothing; and reverting to
    [start + count] keeps the row count. *)
Theorem RevertAppend_truncates_idempotent (this : t) (start_row : Z) :
  is_idx_t (start this) -> is_idx_t (count this) -> is_idx_t start_row ->
  start this <= start_row ->
  count (RevertAppend this start_row) = start_row - start this /\
  tuple_count (data (RevertAppend this start_row)) = start_row - start this /\
  RevertAppend (RevertAppend this start_row) start_row
    = RevertAppend this start_row /\
  count (RevertAppend this (to_idx_t (start this + count this))) = count this.
Proof.
  intros Hs Hc Hr Hle.
  assert (Hd : to_idx_t (start_row - start this) = start_row - start this).
  { apply to_idx_t_small. unfold is_idx_t in *. lia. }
  repeat split; simpl; try exact Hd.
  rewrite to_idx_t_sub_l.
  replace (start this + count this - start this) with (count this) by lia.
  apply to_idx_t_small, Hc.
Qed.

(** C10: within [start <= row_id < start + count] the offset handed to the
    data block is [row_id - start], lies in [[0, count)] and nothing wraps;
    for [row_id < start] the unsigned subtraction wraps: the offset is
    congruent to, but different from, [row_id - start], and for a
    non-negative [row_id] it is [row_id - start + 2^64], which is outside
    every segment range [[0, count)] with [start + count <= 2^64]. *)
Theorem FetchRow_offset_in_range (this : t) (row_id : Z) :
  is_idx_t (start this) -> is_row_t row_id ->
  (start this <= row_id < start this + count this ->
     FetchRow_offset this row_id = row_id - start this /\
     0 <= FetchRow_offset this row_id < count this) /\
  (row_id < start this ->
     FetchRow_offset this row_id = (row_id - start this) mod 2 ^ 64 /\
     FetchRow_offset this row_id <> row_id - start this /\
     (0 <= row_id ->
        FetchRow_offset this row_id = row_id - start this + 2 ^ 64 /\
        (start this + count this <= 2 ^ 64 ->
           count this <= FetchRow_offset this row_id))).
Proof.
  intros Hs Hr. unfold FetchRow_offset. rewrite to_idx_t_sub_l.
  unfold is_idx_t, is_row_t, idx_t_modulus in *.
  split.
  - intros Hin.
    assert (E : to_idx_t (row_id - start this) = row_id - start this).
    { apply to_idx_t_small. unfold is_idx_t, idx_t_modulus. lia. }
    rewrite E. lia.
  - intros Hlt.
    pose proof (to_idx_t_range (row_id - start this)) as Hrange.
    unfold is_idx_t, idx_t_modulus in Hrange.
    split; [reflexivity|]. split; [lia|].
    intros Hnn.
    assert (E : to_idx_t (row_id - start this) = row_id - start this + 2 ^ 64).
    { apply to_idx_t_wrap_once. unfold idx_t_modulus. lia. }
    rewrite E. split; [reflexivity | lia].
Qed.

End TransientSegmentFacts.

(** ** Worlds and traces *)

Lemma emit_extend ev w : emit ev w = extend [ev] w.
Proof. reflexivity. Qed.

Lemma extend_nil w : extend [] w = w.
Proof. destruct w. unfold extend. simpl. rewrite app_nil_r. reflexivity. Qed.

Lemma extend_extend evs1 evs2 w :
  extend evs2 (extend evs1 w) = extend (evs1 ++ evs2) w.
Proof. unfold extend. simpl. rewrite app_assoc. reflexivity. Qed.

Lemma log_events_app tr1 tr2 :
  log_events (tr1 ++ tr2) = log_events tr1 ++ log_events tr2.
Proof. unfold log_events. apply filter_app. Qed.

Lemma switch_markers_app tr1 tr2 :
  switch_markers (tr1 ++ tr2) = switch_markers tr1 ++ switch_markers tr2.
Proof.
  induction tr1 as [|ev tr1 IH]; simpl; [reflexivity|].
  destruct ev; simpl; rewrite ?IH; reflexivity.
Qed.

Lemma log_events_silent evs :
  Forall (fun ev => is_log_event ev = false) evs -> log_events evs = [].
Proof.
  induction 1 as [|ev evs Hev _ IH]; [reflexivity|].
  unfold log_events in *. simpl. rewrite filter_cons.
  destruct (decide (is_log_event ev)) as [Ht|_]; [|exact IH].
  rewrite Hev in Ht. contradiction.
Qed.

(** ** Arrays *)

Section ArrayFacts.
Variable start : Z.

Let row_id (t : Z) : Z := to_row_t (to_idx_t (start + t)).






End ArrayFacts.

(** ** The commit state *)

Section CommitStateFacts.
Import CommitState.
Local Open Scope commit_scope.

Ltac run :=
  cbv beta iota zeta delta
    [bind ret throw effect this_commit_id log_call D_ASSERT_log D_ASSERT
     from_array Deserialize WriteToLog fst snd].

Lemma CommitEntry_insert HAS_LOG info this w :
  (HAS_LOG = true -> is_Some (log this)) ->
  let table := AppendInfo.table info in
  CommitEntry HAS_LOG (INSERT_TUPLE info) (this, w)
  = (Returned tt,
     (this,
      extend
        ((if HAS_LOG && negb (DataTableInfo.IsTemporary (DataTable.info table))
          then [TableWriteToLog (DataTable.addr table)
                  (AppendInfo.start_row info) (AppendInfo.count info)]
          else [])
         ++ [TableCommitAppend (DataTable.addr table) (commit_id this)
               (AppendInfo.start_row info) (AppendInfo.count info)]) w)).
Proof.
  intros Hlog table. unfold CommitEntry. fold table.
  destruct (HAS_LOG && negb (DataTableInfo.IsTemporary (DataTable.info table)))
    eqn:Hl.
  - assert (HAS_LOG = true) as -> by (destruct HAS_LOG; auto).
    destruct (Hlog eq_refl) as [l Hl']. run. rewrite Hl'. simpl.
    rewrite !emit_extend, extend_extend. reflexivity.
  - run. rewrite emit_extend. reflexivity.
Qed.

(** C4: committing a row insertion with logging enabled on a table that is
    not temporary calls [WriteToLog] for the range and only then
    [CommitAppend]; with logging disabled or a temporary table it calls
    [CommitAppend] alone and nothing reaches the log sink. *)
Theorem insert_logged_before_commit
    (HAS_LOG : bool) (info : AppendInfo.t) (this : CommitState.t) (w : World) :
  (HAS_LOG = true -> is_Some (log this)) ->
  let table := AppendInfo.table info in
  let logged := HAS_LOG && negb (DataTableInfo.IsTemporary (DataTable.info table)) in
  let write := TableWriteToLog (DataTable.addr table)
                 (AppendInfo.start_row info) (AppendInfo.count info) in
  let commit := TableCommitAppend (DataTable.addr table) (commit_id this)
                  (AppendInfo.start_row info) (AppendInfo.count info) in
  CommitEntry HAS_LOG (INSERT_TUPLE info) (this, w)
  = (Returned tt,
     (this, extend ((if logged then [write] else []) ++ [commit]) w)) /\
  is_log_event write = true /\ is_log_event commit = false /\
  (logged = false ->
   log_events (trace (snd (snd (CommitEntry HAS_LOG (INSERT_TUPLE info) (this, w)))))
   = log_events (trace w)).
Proof.
  intros Hlog table logged write commit.
  assert (E : CommitEntry HAS_LOG (INSERT_TUPLE info) (this, w)
              = (Returned tt,
                 (this, extend ((if logged then [write] else []) ++ [commit]) w))).
  { apply CommitEntry_insert, Hlog. }
  split; [exact E|]. split; [reflexivity|]. split; [reflexivity|].
  intros Hl. rewrite E, Hl. simpl.
  rewrite log_events_app. simpl. unfold log_events at 2. simpl.
  rewrite app_nil_r. reflexivity.
Qed.

(** [WriteCatalogEntry] leaves [this] alone and only appends log-sink
    calls and at most one catalog hook to the trace. *)
Lemma WriteCatalogEntry_effects entry dataptr this w :
  exists r evs,
    WriteCatalogEntry entry dataptr (this, w) = (r, (this, extend evs w)) /\
    Forall (fun ev => is_visibility_event ev = false) evs /\
    (length (filter is_hook_event evs) <= 1)%nat /\
    filter (fun ev => negb (is_log_event ev)) evs = filter is_hook_event evs /\
    switch_markers evs = [].
Proof.
  unfold WriteCatalogEntry.
  destruct (entry_temporary entry);
    [exists (Returned tt), []; rewrite extend_nil; repeat split; auto|].
  destruct (parent entry) as [p|];
    [|exists (Thrown NullPointer), []; rewrite extend_nil; repeat split; auto].
  destruct (entry_temporary p);
    [exists (Returned tt), []; rewrite extend_nil; repeat split; auto|].
  destruct (log this) as [l|] eqn:Hlog.
  2:{ exists (Thrown AssertionFailure), []. run. rewrite Hlog. simpl.
      rewrite extend_nil. repeat split; auto. }
  destruct (entry_type p); destruct (entry_type entry); destruct dataptr;
    run; rewrite Hlog; simpl; run; rewrite ?Hlog; simpl;
    rewrite ?emit_extend, ?extend_extend;
    first
      [ eexists _, [_; _]; split; [reflexivity|];
        repeat split; repeat constructor
      | eexists _, [_]; split; [reflexivity|];
        repeat split; repeat constructor
      | eexists _, []; rewrite extend_nil; split; [reflexivity|];
        repeat split; repeat constructor ].
Qed.

(** C8: whatever the entry, [RevertCommit] leaves the commit state alone
    and appends to the trace only calls that revert an append or re-mark
    version info: nothing reaches the log sink. *)
Theorem RevertCommit_writes_no_log
    (entry : UndoEntry) (this : CommitState.t) (w : World) :
  let result := RevertCommit entry (this, w) in
  fst (snd result) = this /\
  (exists evs,
     trace (snd (snd result)) = trace w ++ evs /\
     Forall (fun ev => is_log_event ev = false /\
                       is_visibility_event ev = true) evs) /\
  log_events (trace (snd (snd result))) = log_events (trace w).
Proof.
  assert (H : exists r evs,
             RevertCommit entry (this, w) = (r, (this, evs)) /\
             exists new, trace evs = trace w ++ new /\
               Forall (fun ev => is_log_event ev = false /\
                                 is_visibility_event ev = true) new).
  { unfold RevertCommit.
    destruct entry as [ce ?|info|info|info|? ?]; run.
    - destruct (parent ce) as [p|]; run.
      + destruct (negb (String.eqb (entry_name ce) (entry_name p))); run;
          eexists _, _; (split; [reflexivity|]); exists [];
          simpl; rewrite app_nil_r; auto.
      + eexists _, _; (split; [reflexivity|]); exists [];
          simpl; rewrite app_nil_r; auto.
    - eexists _, _; (split; [reflexivity|]); eexists [_]; simpl; auto.
    - eexists _, _; (split; [reflexivity|]); eexists [_]; simpl; auto.
    - eexists _, _; (split; [reflexivity|]); exists [];
        simpl; rewrite app_nil_r; auto.
    - eexists _, _; (split; [reflexivity|]); exists [];
        simpl; rewrite app_nil_r; auto. }
  destruct H as (r & w' & E & new & Htr & Hnew).
  intros result. subst result. rewrite E. simpl.
  split; [reflexivity|]. split; [exists new; auto|].
  rewrite Htr, log_events_app, (log_events_silent new), app_nil_r; [reflexivity|].
  eapply Forall_impl; [exact Hnew|]. simpl. intros ev [H _]. exact H.
Qed.

Lemma stamp_entry_overwrite ce p a b ts :
  stamp_entry ce p b (stamp_entry ce p a ts) = stamp_entry ce p b ts.
Proof.
  unfold stamp_entry.
  destruct (negb (String.eqb (entry_name ce) (entry_name p)));
    apply map_eq; intros k; rewrite !lookup_insert;
    repeat case_decide; congruence.
Qed.

Lemma stamp_entry_parent ce p id ts :
  stamp_entry ce p id ts !! (entry_set ce, entry_addr p) = Some id.
Proof.
  unfold stamp_entry.
  destruct (negb (String.eqb (entry_name ce) (entry_name p)));
    rewrite !lookup_insert; repeat case_decide; congruence.
Qed.

Lemma stamp_entry_child ce p id ts :
  entry_name ce <> entry_name p ->
  stamp_entry ce p id ts !! (entry_set ce, entry_addr ce) = Some id.
Proof.
  intros Hne. unfold stamp_entry.
  destruct (String.eqb_spec (entry_name ce) (entry_name p)) as [E|_];
    [contradiction|]. simpl.
  rewrite lookup_insert. case_decide; congruence.
Qed.

Lemma stamp_entry_same ce p id ts :
  ts !! (entry_set ce, entry_addr p) = Some id ->
  (entry_name ce <> entry_name p ->
   ts !! (entry_set ce, entry_addr ce) = Some id) ->
  stamp_entry ce p id ts = ts.
Proof.
  intros Hp Hc. unfold stamp_entry.
  destruct (String.eqb_spec (entry_name ce) (entry_name p)) as [E|Hne]; simpl.
  - apply insert_id, Hp.
  - rewrite (insert_id ts _ _ Hp). apply insert_id, Hc, Hne.
Qed.

Lemma CommitEntry_catalog HAS_LOG ce extra p this w :
  parent ce = Some p ->
  exists r evs,
    CommitEntry HAS_LOG (CATALOG_ENTRY ce extra) (this, w)
    = (r, (this, extend evs (stamp_world ce p (commit_id this) w))) /\
    (HAS_LOG = false -> r = Returned tt /\ evs = []) /\
    (HAS_LOG = true ->
     WriteCatalogEntry ce extra (this, stamp_world ce p (commit_id this) w)
     = (r, (this, extend evs (stamp_world ce p (commit_id this) w)))).
Proof.
  intros Hp.
  destruct (WriteCatalogEntry_effects ce extra this
              (stamp_world ce p (commit_id this) w)) as (r & evs & E & _).
  assert (S : CommitEntry HAS_LOG (CATALOG_ENTRY ce extra) (this, w)
              = (if HAS_LOG then WriteCatalogEntry ce extra else ret tt)
                  (this, stamp_world ce p (commit_id this) w)).
  { unfold CommitEntry. rewrite Hp. run.
    unfold stamp_world, stamp_entry.
    destruct (negb (String.eqb (entry_name ce) (entry_name p))); reflexivity. }
  rewrite S. destruct HAS_LOG.
  - exists r, evs. rewrite E. repeat split; congruence.
  - exists (Returned tt), []. rewrite extend_nil. repeat split; congruence.
Qed.

Lemma RevertCommit_catalog ce extra p this w :
  parent ce = Some p ->
  RevertCommit (CATALOG_ENTRY ce extra) (this, w)
  = (Returned tt, (this, stamp_world ce p (commit_id this) w)).
Proof.
  intros Hp. unfold RevertCommit. rewrite Hp. run.
  unfold stamp_world, stamp_entry.
  destruct (negb (String.eqb (entry_name ce) (entry_name p))); reflexivity.
Qed.

(** C2: after a catalog change is committed (parent, and the entry itself
    when the names differ, stamped with the commit id) and then reverted by
    a commit state that carries the transaction id, exactly those entries
    carry the transaction id again: the timestamps are those of the
    pre-commit world re-stamped with the transaction id, hence the
    pre-commit timestamps when the entries carried that id before. *)
Theorem commit_then_revert_restores_timestamps
    (HAS_LOG : bool) (catalog_entry p : CatalogEntry)
    (extra_data : option AlterInfo) (committer : CommitState.t)
    (transaction_id : Z) (log' : option ptr) (w : World) :
  parent catalog_entry = Some p ->
  let entry := CATALOG_ENTRY catalog_entry extra_data in
  let w1 := snd (snd (CommitEntry HAS_LOG entry (committer, w))) in
  let reverted := RevertCommit entry (make transaction_id log', w1) in
  let w2 := snd (snd reverted) in
  let key_parent := (entry_set catalog_entry, entry_addr p) in
  let key_entry := (entry_set catalog_entry, entry_addr catalog_entry) in
  timestamps w1
    = stamp_entry catalog_entry p (commit_id committer) (timestamps w) /\
  fst reverted = Returned tt /\
  timestamps w2 = stamp_entry catalog_entry p transaction_id (timestamps w) /\
  timestamps w2 !! key_parent = Some transaction_id /\
  (entry_name catalog_entry <> entry_name p ->
   timestamps w1 !! key_entry = Some (commit_id committer) /\
   timestamps w2 !! key_entry = Some transaction_id) /\
  (timestamps w !! key_parent = Some transaction_id ->
   (entry_name catalog_entry <> entry_name p ->
    timestamps w !! key_entry = Some transaction_id) ->
   timestamps w2 = timestamps w).
Proof.
  intros Hp entry w1 reverted w2 key_parent key_entry.
  destruct (CommitEntry_catalog HAS_LOG catalog_entry extra_data p committer w Hp)
    as (r & evs & E & _).
  assert (E1 : timestamps w1
               = stamp_entry catalog_entry p (commit_id committer) (timestamps w)).
  { subst w1 entry. rewrite E. reflexivity. }
  assert (E2 : reverted
               = (Returned tt,
                  (make transaction_id log',
                   stamp_world catalog_entry p transaction_id w1))).
  { subst reverted entry. rewrite (RevertCommit_catalog _ _ p); [reflexivity|exact Hp]. }
  assert (E3 : timestamps w2
               = stamp_entry catalog_entry p transaction_id (timestamps w)).
  { subst w2. rewrite E2. simpl. rewrite E1. apply stamp_entry_overwrite. }
  split; [exact E1|]. split; [rewrite E2; reflexivity|].
  split; [exact E3|]. split; [rewrite E3; apply stamp_entry_parent|].
  split.
  - intros Hne. rewrite E1, E3. split; apply stamp_entry_child, Hne.
  - intros Hkp Hke. rewrite E3. apply stamp_entry_same; assumption.
Qed.

Lemma bind_returned {A B} (m : M A) (k : A -> M B) s a s' :
  m s = (Returned a, s') -> bind m k s = k a s'.
Proof. intros E. unfold bind. rewrite E. reflexivity. Qed.


Lemma D_ASSERT_log_attached this w l :
  log this = Some l -> D_ASSERT_log (this, w) = (Returned tt, (this, w)).
Proof. intros Hl. run. rewrite Hl. reflexivity. Qed.

Lemma log_call_attached ev this w l :
  log this = Some l ->
  log_call ev (this, w) = (Returned tt, (this, extend [ev] w)).
Proof. intros Hl. run. rewrite Hl. reflexivity. Qed.

Lemma SwitchTable_run ti new_op this w l :
  log this = Some l ->
  SwitchTable ti new_op (this, w)
  = (Returned tt, (switched_state ti this, extend (marker_for this ti) w)).
Proof.
  intros Hl. unfold SwitchTable, marker_for, switched_state. simpl.
  case_decide as Hcur.
  - rewrite extend_nil. destruct this; simpl in *. subst. reflexivity.
  - run. rewrite Hl. rewrite emit_extend. rewrite <- Hl. reflexivity.
Qed.



Lemma bind_inv_returned {A B} (m : M A) (k : A -> M B) s b s'' :
  bind m k s = (Returned b, s'') ->
  exists a s', m s = (Returned a, s') /\ k a s' = (Returned b, s'').
Proof.
  unfold bind. destruct (m s) as [[a|e] s']; intros H.
  - exists a, s'. auto.
  - discriminate.
Qed.

Lemma WriteDelete_run info this w l :
  log this = Some l ->
  let ti := DataTable.info (DeleteInfo.table info) in
  WriteDelete info (this, w)
  = match delete_chunk_of info with
    | Some chunk =>
        (Returned tt,
         (switched_state ti this,
          extend (marker_for this ti ++ [LogWriteDelete chunk]) w))
    | None =>
        (Thrown OutOfRange, (switched_state ti this, extend (marker_for this ti) w))
    end.
Proof.
  intros Hl ti. unfold WriteDelete. fold ti.
  rewrite (bind_returned _ _ _ _ _ (D_ASSERT_log_attached this w l Hl)).
  rewrite (bind_returned _ _ _ _ _
             (SwitchTable_run ti FLAG_DELETE_TUPLE this w l Hl)).
  destruct (delete_chunk_of info) as [chunk|]; unfold from_array.
  - rewrite (bind_returned (ret _) _ _ _ _ eq_refl).
    rewrite (log_call_attached _ _ _ l) by exact Hl.
    rewrite extend_extend. reflexivity.
  - reflexivity.
Qed.

Lemma WriteUpdate_run info this w l :
  log this = Some l ->
  let column_data := UpdateSegment.column_data (UpdateInfo.segment info) in
  let ti := ColumnData.table_info column_data in
  WriteUpdate info (this, w)
  = match update_chunk_of info with
    | Some chunk =>
        (Returned tt,
         (switched_state ti this,
          extend (marker_for this ti
                  ++ [LogWriteUpdate chunk (ColumnData.column_idx column_data)]) w))
    | None =>
        (Thrown OutOfRange, (switched_state ti this, extend (marker_for this ti) w))
    end.
Proof.
  intros Hl column_data ti. unfold WriteUpdate. fold column_data. fold ti.
  rewrite (bind_returned _ _ _ _ _ (D_ASSERT_log_attached this w l Hl)).
  rewrite (bind_returned _ _ _ _ _
             (SwitchTable_run ti FLAG_UPDATE_TUPLE this w l Hl)).
  destruct (update_chunk_of info) as [chunk|]; unfold from_array.
  - rewrite (bind_returned (ret _) _ _ _ _ eq_refl).
    rewrite (log_call_attached _ _ _ l) by exact Hl.
    rewrite extend_extend. reflexivity.
  - reflexivity.
Qed.

Lemma switch_markers_marker_for this ti :
  switch_markers (marker_for this ti)
  = map table_names (markers_from (current_table_info this) [ti]).
Proof.
  unfold marker_for. simpl. case_decide; reflexivity.
Qed.

(** What a successful logging commit of one entry does to the commit state
    and to the markers of the trace. *)
Lemma CommitEntry_logged_shape entry this w l this' w' :
  log this = Some l ->
  CommitEntry true entry (this, w) = (Returned tt, (this', w')) ->
  match switched_table entry with
  | Some ti =>
      this' = switched_state ti this /\
      exists record rest,
        trace w' = trace w ++ marker_for this ti ++ record :: rest /\
        is_log_event record = true /\
        switch_markers (record :: rest) = []
  | None =>
      this' = this /\
      exists evs, trace w' = trace w ++ evs /\ switch_markers evs = []
  end.
Proof.
  intros Hl H.
  destruct entry as [ce extra|info|info|info|raw data]; simpl.
  - destruct (parent ce) as [p|] eqn:Hp.
    2:{ unfold CommitEntry in H. rewrite Hp in H. discriminate. }
    destruct (CommitEntry_catalog true ce extra p this w Hp)
      as (r & evs & E & _ & EW).
    destruct (WriteCatalogEntry_effects ce extra this
                (stamp_world ce p (commit_id this) w))
      as (r' & evs' & E' & _ & _ & _ & Hm).
    rewrite (EW eq_refl) in E'. injection E' as -> Hext.
    rewrite E in H. injection H as _ <- <-.
    split; [reflexivity|]. exists evs. split; [reflexivity|].
    assert (evs = evs') as ->; [|exact Hm].
    apply app_inv_head in Hext. exact Hext.
  - rewrite CommitEntry_insert in H by (rewrite Hl; eauto).
    injection H as <- <-.
    split; [reflexivity|]. eexists. split; [reflexivity|].
    destruct (DataTableInfo.IsTemporary (DataTable.info (AppendInfo.table info)));
      reflexivity.
  - unfold CommitEntry in H.
    destruct (DataTableInfo.IsTemporary (DataTable.info (DeleteInfo.table info)));
      simpl in H.
    + revert H; run; intros H; injection H as <- <-.
      split; [reflexivity|]. eexists; split; reflexivity.
    + apply bind_inv_returned in H as ([] & [this1 w1] & H1 & H2).
      rewrite (WriteDelete_run info this w l Hl) in H1.
      destruct (delete_chunk_of info) as [chunk|]; [|discriminate].
      injection H1 as <- <-. revert H2; run; intros H2. injection H2 as <- <-.
      split; [reflexivity|]. simpl. rewrite <- !app_assoc. simpl.
      eexists _, [_]. split; [reflexivity|]. split; reflexivity.
  - unfold CommitEntry in H.
    destruct (DataTableInfo.IsTemporary
                (ColumnData.table_info
                   (UpdateSegment.column_data (UpdateInfo.segment info))));
      simpl in H.
    + revert H; run; intros H; injection H as <- <-.
      split; [reflexivity|]. exists []. simpl. rewrite app_nil_r. auto.
    + apply bind_inv_returned in H as ([] & [this1 w1] & H1 & H2).
      rewrite (WriteUpdate_run info this w l Hl) in H1.
      destruct (update_chunk_of info) as [chunk|]; [|discriminate].
      injection H1 as <- <-. revert H2; run; intros H2. injection H2 as <- <-.
      split; [reflexivity|]. simpl. rewrite <- ?app_assoc. simpl.
      eexists _, []. split; [reflexivity|]. split; reflexivity.
  - discriminate.
Qed.

Lemma no_repeat_markers_from tables :
  forall cur, no_repeat_from cur (markers_from cur tables).
Proof.
  induction tables as [|ti tables IH]; intros cur; simpl; [exact I|].
  case_decide as Hcur; [apply IH|].
  simpl. split; [exact Hcur | apply IH].
Qed.

Lemma logged_table_switched es :
  Forall no_logged_insert es ->
  omap logged_table es = omap switched_table es.
Proof.
  induction 1 as [|e es He _ IH]; [reflexivity|].
  destruct e; simpl in *; rewrite ?He; simpl;
    repeat case_match; first [exact IH | f_equal; exact IH].
Qed.

Lemma Commit_logged_markers es :
  forall this w this' w' l,
    log this = Some l ->
    Commit true es (this, w) = (Returned tt, (this', w')) ->
    exists evs,
      trace w' = trace w ++ evs /\
      switch_markers evs
      = map table_names
            (markers_from (current_table_info this) (omap switched_table es)).
Proof.
  induction es as [|e es IH]; intros this w this' w' l Hl H; simpl in H.
  - injection H as <- <-. exists []. rewrite app_nil_r. auto.
  - apply bind_inv_returned in H as ([] & [this1 w1] & H1 & H2).
    pose proof (CommitEntry_logged_shape e this w l this1 w1 Hl H1) as Hshape.
    simpl. destruct (switched_table e) as [ti|].
    + destruct Hshape as (-> & record & rest & Htr & _ & Hm).
      destruct (IH (switched_state ti this) _ _ _ l Hl H2) as (evs & Htr' & Hm').
      exists ((marker_for this ti ++ record :: rest) ++ evs).
      split; [rewrite Htr', Htr, <- !app_assoc; reflexivity|].
      rewrite !switch_markers_app, Hm, app_nil_r, Hm'.
      rewrite switch_markers_marker_for. simpl.
      case_decide as Hcur; simpl; [rewrite Hcur|]; reflexivity.
    + destruct Hshape as (-> & evs1 & Htr & Hm).
      destruct (IH _ _ _ _ l Hl H2) as (evs & Htr' & Hm').
      exists (evs1 ++ evs).
      split; [rewrite Htr', Htr, <- app_assoc; reflexivity|].
      rewrite switch_markers_app, Hm, Hm'. reflexivity.
Qed.

(** C1, for logs without logged insertions: when a log of entries none of
    which is a logged row
    insertion is committed with logging enabled, the markers sent to the
    sink are exactly the tables of the logged entries with every table
    dropped that equals the one before it (starting from the current table
    of the commit state), so no marker repeats its predecessor; a logged
    deletion or update is preceded by its marker exactly when its table is
    not the current one, and nothing else of the entry is a marker; tables
    [A, A, B, A] get the markers A, B, A. *)
Theorem switch_markers_follow_table_changes
    (es : list UndoEntry) (this this' : CommitState.t) (w w' : World) (l : ptr) :
  log this = Some l ->
  Forall no_logged_insert es ->
  Commit true es (this, w) = (Returned tt, (this', w')) ->
  let cur := current_table_info this in
  let due := markers_from cur (omap logged_table es) in
  (exists evs,
     trace w' = trace w ++ evs /\
     switch_markers evs = map table_names due) /\
  no_repeat_from cur due /\
  (forall entry ti this0 w0 this1 w1,
     log this0 = Some l ->
     logged_table entry = Some ti -> no_logged_insert entry ->
     CommitEntry true entry (this0, w0) = (Returned tt, (this1, w1)) ->
     current_table_info this1 = Some (DataTableInfo.addr ti) /\
     exists record rest,
       trace w1 = trace w0 ++ marker_for this0 ti ++ record :: rest /\
       is_log_event record = true /\
       switch_markers (record :: rest) = []) /\
  (forall A B : DataTableInfo.t,
     DataTableInfo.addr A <> DataTableInfo.addr B ->
     markers_from None [A; A; B; A] = [A; B; A]).
Proof.
  intros Hl Hes H cur due. subst due.
  rewrite (logged_table_switched es Hes).
  split; [exact (Commit_logged_markers es this w this' w' l Hl H)|].
  split; [apply no_repeat_markers_from|]. split.
  - intros entry ti this0 w0 this1 w1 Hl0 Hti Hins H1.
    pose proof (CommitEntry_logged_shape entry this0 w0 l this1 w1 Hl0 H1)
      as Hshape.
    assert (Hsw : switched_table entry = Some ti).
    { destruct entry; simpl in *; try exact Hti.
      rewrite Hins in Hti. discriminate. }
    rewrite Hsw in Hshape. destruct Hshape as (-> & Hrec).
    split; [reflexivity | exact Hrec].
  - intros A B Hne. simpl. repeat case_decide; congruence.
Qed.

Lemma CommitEntry_delete HAS_LOG info this w l :
  log this = Some l ->
  let ti := DataTable.info (DeleteInfo.table info) in
  let commit := VersionCommitDelete (DeleteInfo.vinfo info) (commit_id this)
                  (DeleteInfo.rows info) (DeleteInfo.count info) in
  CommitEntry HAS_LOG (DELETE_TUPLE info) (this, w)
  = if HAS_LOG && negb (DataTableInfo.IsTemporary ti) then
      match delete_chunk_of info with
      | Some chunk =>
          (Returned tt,
           (switched_state ti this,
            extend (marker_for this ti ++ [LogWriteDelete chunk; commit]) w))
      | None =>
          (Thrown OutOfRange,
           (switched_state ti this, extend (marker_for this ti) w))
      end
    else (Returned tt, (this, extend [commit] w)).
Proof.
  intros Hl ti commit. unfold CommitEntry. fold ti.
  destruct (HAS_LOG && negb (DataTableInfo.IsTemporary ti)).
  - unfold bind at 1. rewrite (WriteDelete_run info this w l Hl). fold ti.
    destruct (delete_chunk_of info) as [chunk|]; [|reflexivity].
    run. rewrite emit_extend, extend_extend, <- app_assoc. reflexivity.
  - run. rewrite emit_extend. reflexivity.
Qed.

Lemma CommitEntry_update HAS_LOG info this w l :
  log this = Some l ->
  let column_data := UpdateSegment.column_data (UpdateInfo.segment info) in
  let ti := ColumnData.table_info column_data in
  CommitEntry HAS_LOG (UPDATE_TUPLE info) (this, w)
  = if HAS_LOG && negb (DataTableInfo.IsTemporary ti) then
      match update_chunk_of info with
      | Some chunk =>
          (Returned tt,
           (switched_state ti this,
            set_version_number (UpdateInfo.addr info) (commit_id this)
              (extend (marker_for this ti
                       ++ [LogWriteUpdate chunk (ColumnData.column_idx column_data)])
                      w)))
      | None =>
          (Thrown OutOfRange,
           (switched_state ti this, extend (marker_for this ti) w))
      end
    else (Returned tt,
          (this, set_version_number (UpdateInfo.addr info) (commit_id this) w)).
Proof.
  intros Hl column_data ti. unfold CommitEntry. fold column_data. fold ti.
  destruct (HAS_LOG && negb (DataTableInfo.IsTemporary ti)).
  - unfold bind at 1. rewrite (WriteUpdate_run info this w l Hl).
    fold column_data. fold ti.
    destruct (update_chunk_of info) as [chunk|]; reflexivity.
  - reflexivity.
Qed.

Lemma is_visibility_event_spec ev :
  is_visibility_event ev = negb (is_log_event ev) && negb (is_hook_event ev).
Proof. destruct ev; reflexivity. Qed.

Lemma visibility_extend_silent evs w :
  Forall (fun ev => is_visibility_event ev = false) evs ->
  visibility (extend evs w) = visibility w.
Proof.
  intros H. unfold visibility, extend. simpl. rewrite filter_app.
  replace (filter is_visibility_event evs) with (@nil Event);
    [rewrite app_nil_r; reflexivity|].
  induction H as [|ev evs Hev _ IH]; [reflexivity|].
  rewrite filter_cons. destruct (decide (is_visibility_event ev)) as [Ht|_];
    [rewrite Hev in Ht; contradiction | exact IH].
Qed.


Lemma WriteCatalogEntry_NotImplemented ce extra this w l :
  log this = Some l ->
  is_NotImplemented (fst (WriteCatalogEntry ce extra (this, w)))
  = persisted ce && unsupported_for_log ce /\
  fst (WriteCatalogEntry ce extra (this, w))
  <> Thrown (NotImplementedException
               "UndoBuffer - don't know how to commit this type!").
Proof.
  intros Hl. unfold WriteCatalogEntry, persisted, unsupported_for_log.
  destruct (entry_temporary ce); [split; [reflexivity|discriminate]|].
  destruct (parent ce) as [p|]; [|split; [reflexivity|discriminate]].
  destruct (entry_temporary p); [split; [reflexivity|discriminate]|].
  rewrite (bind_returned _ _ _ _ _ (D_ASSERT_log_attached this w l Hl)).
  destruct (entry_type p); destruct (entry_type ce); destruct extra;
    repeat progress (simpl; run; rewrite ?Hl);
    (split; [reflexivity|discriminate]).
Qed.

Lemma CommitEntry_unlogged entry this w :
  CommitEntry false entry (this, w)
  = match entry with
    | CATALOG_ENTRY ce _ =>
        match parent ce with
        | Some p => (Returned tt, (this, stamp_world ce p (commit_id this) w))
        | None => (Thrown AssertionFailure, (this, w))
        end
    | INSERT_TUPLE info =>
        (Returned tt,
         (this,
          extend [TableCommitAppend (DataTable.addr (AppendInfo.table info))
                    (commit_id this) (AppendInfo.start_row info)
                    (AppendInfo.count info)] w))
    | DELETE_TUPLE info =>
        (Returned tt,
         (this,
          extend [VersionCommitDelete (DeleteInfo.vinfo info) (commit_id this)
                    (DeleteInfo.rows info) (DeleteInfo.count info)] w))
    | UPDATE_TUPLE info =>
        (Returned tt,
         (this, set_version_number (UpdateInfo.addr info) (commit_id this) w))
    | OTHER_UNDO_FLAG _ _ =>
        (Thrown (NotImplementedException
                   "UndoBuffer - don't know how to commit this type!"),
         (this, w))
    end.
Proof.
  destruct entry as [ce extra|info|info|info|raw data]; try reflexivity.
  destruct (parent ce) as [p|] eqn:Hp.
  - destruct (CommitEntry_catalog false ce extra p this w Hp)
      as (r & evs & E & Hr & _).
    destruct (Hr eq_refl) as [-> ->]. rewrite extend_nil in E. exact E.
  - unfold CommitEntry. rewrite Hp. reflexivity.
Qed.

Lemma D_ASSERT_log_detached this w :
  log this = None -> D_ASSERT_log (this, w) = (Thrown AssertionFailure, (this, w)).
Proof. intros Hl. unfold D_ASSERT_log. cbn [fst]. rewrite Hl. reflexivity. Qed.

(** A [NotImplementedException] of [WriteCatalogEntry] comes from one of its
    two [throw] statements, log or no log. *)
Lemma WriteCatalogEntry_NotImplemented_only ce extra this w :
  is_NotImplemented (fst (WriteCatalogEntry ce extra (this, w))) = true ->
  persisted ce = true /\ unsupported_for_log ce = true /\
  fst (WriteCatalogEntry ce extra (this, w))
  <> Thrown (NotImplementedException
               "UndoBuffer - don't know how to commit this type!").
Proof.
  destruct (log this) as [l|] eqn:Hl.
  - destruct (WriteCatalogEntry_NotImplemented ce extra this w l Hl) as [-> Hne].
    intros H. apply andb_true_iff in H. tauto.
  - unfold WriteCatalogEntry.
    destruct (entry_temporary ce); [discriminate|].
    destruct (parent ce) as [p|]; [|discriminate].
    destruct (entry_temporary p); [discriminate|].
    unfold bind at 1. rewrite (D_ASSERT_log_detached this w Hl). discriminate.
Qed.

(** Committing a row entry throws no [NotImplementedException], log or no
    log. *)
Lemma CommitEntry_row_NotImplemented HAS_LOG entry this w :
  known_kind entry = true ->
  (forall ce extra, entry <> CATALOG_ENTRY ce extra) ->
  is_NotImplemented (fst (CommitEntry HAS_LOG entry (this, w))) = false.
Proof.
  intros Hk Hrow.
  destruct entry as [ce extra|info|info|info|raw data];
    [destruct (Hrow ce extra eq_refl) | | | | discriminate].
  - destruct (log this) as [l|] eqn:Hl.
    + rewrite CommitEntry_insert by (rewrite Hl; eauto). reflexivity.
    + unfold CommitEntry.
      destruct (HAS_LOG && negb (DataTableInfo.IsTemporary
                                   (DataTable.info (AppendInfo.table info))));
        [|reflexivity].
      run. rewrite Hl. reflexivity.
  - destruct (log this) as [l|] eqn:Hl.
    + rewrite (CommitEntry_delete HAS_LOG info this w l Hl).
      repeat case_match; reflexivity.
    + unfold CommitEntry.
      destruct (HAS_LOG && negb (DataTableInfo.IsTemporary
                                   (DataTable.info (DeleteInfo.table info))));
        [|reflexivity].
      unfold WriteDelete. unfold bind at 1 2.
      rewrite (D_ASSERT_log_detached this w Hl). reflexivity.
  - destruct (log this) as [l|] eqn:Hl.
    + rewrite (CommitEntry_update HAS_LOG info this w l Hl).
      repeat case_match; reflexivity.
    + unfold CommitEntry.
      destruct (HAS_LOG && negb (DataTableInfo.IsTemporary
                                   (ColumnData.table_info
                                      (UpdateSegment.column_data
                                         (UpdateInfo.segment info)))));
        [|reflexivity].
      unfold WriteUpdate. unfold bind at 1 2.
      rewrite (D_ASSERT_log_detached this w Hl). reflexivity.
Qed.

(** C7, with the temporary guard and the propagation from the log writer
    spelled out.  Log or no log: [CommitEntry] (either instantiation) and
    [RevertCommit] throw their own [NotImplementedException] exactly for an
    entry kind outside the four known ones; [RevertCommit] and
    [CommitEntry<false>] throw no other one; a [NotImplementedException] of
    [CommitEntry<true>] on a known kind comes from a catalog change that is
    neither temporary nor supported by the log writer, and one of
    [WriteCatalogEntry] from such an entry.  With a log attached, as
    [WriteCatalogEntry] asserts, these are equivalences:
    [WriteCatalogEntry] throws one exactly when neither the entry nor its
    parent is temporary and the entry is dropped with an unhandled type or
    the parent's type is not enumerated, and [CommitEntry<true>] exactly for
    an unknown kind or such a catalog change. *)
Theorem NotImplemented_exactly_when
    (HAS_LOG : bool) (entry : UndoEntry) (this : CommitState.t) (w : World) :
  let rejected :=
    exists ce extra, entry = CATALOG_ENTRY ce extra /\
                     persisted ce = true /\ unsupported_for_log ce = true in
  (fst (CommitEntry HAS_LOG entry (this, w))
   = Thrown (NotImplementedException
               "UndoBuffer - don't know how to commit this type!")
   <-> known_kind entry = false) /\
  (fst (RevertCommit entry (this, w))
   = Thrown (NotImplementedException
               "UndoBuffer - don't know how to revert commit of this type!")
   <-> known_kind entry = false) /\
  (is_NotImplemented (fst (RevertCommit entry (this, w))) = true
   <-> known_kind entry = false) /\
  (is_NotImplemented (fst (CommitEntry false entry (this, w))) = true
   <-> known_kind entry = false) /\
  (is_NotImplemented (fst (CommitEntry HAS_LOG entry (this, w))) = true ->
   known_kind entry = false \/ (HAS_LOG = true /\ rejected)) /\
  (forall ce extra,
     is_NotImplemented (fst (WriteCatalogEntry ce extra (this, w))) = true ->
     persisted ce = true /\ unsupported_for_log ce = true) /\
  (is_Some (log this) ->
   (is_NotImplemented (fst (CommitEntry HAS_LOG entry (this, w))) = true
    <-> known_kind entry = false \/ (HAS_LOG = true /\ rejected)) /\
   (forall ce extra,
      is_NotImplemented (fst (WriteCatalogEntry ce extra (this, w))) = true
      <-> persisted ce = true /\ unsupported_for_log ce = true)).
Proof.
  intros rejected.
  assert (HR : fst (RevertCommit entry (this, w))
               = Thrown (NotImplementedException
                   "UndoBuffer - don't know how to revert commit of this type!")
               <-> known_kind entry = false).
  { destruct entry as [ce extra|info|info|info|raw data]; simpl;
      try (split; discriminate); [|split; reflexivity].
    unfold RevertCommit. run. destruct (parent ce) as [p|]; run.
    - destruct (negb (String.eqb (entry_name ce) (entry_name p)));
        split; discriminate.
    - split; discriminate. }
  assert (HR' : is_NotImplemented (fst (RevertCommit entry (this, w))) = true
                <-> known_kind entry = false).
  { destruct entry as [ce extra|info|info|info|raw data]; simpl;
      try (split; discriminate); [|split; reflexivity].
    unfold RevertCommit. run. destruct (parent ce) as [p|]; run.
    - destruct (negb (String.eqb (entry_name ce) (entry_name p)));
        split; discriminate.
    - split; discriminate. }
  assert (HU : is_NotImplemented (fst (CommitEntry false entry (this, w))) = true
               <-> known_kind entry = false).
  { rewrite CommitEntry_unlogged.
    destruct entry as [ce extra|info|info|info|raw data]; simpl;
      try (split; discriminate); [|split; reflexivity].
    destruct (parent ce); split; discriminate. }
  (* what a [NotImplementedException] of [CommitEntry] implies *)
  assert (HC : forall b,
             is_NotImplemented (fst (CommitEntry b entry (this, w))) = true ->
             known_kind entry = false \/ (b = true /\ rejected)).
  { intros b H.
    destruct (known_kind entry) eqn:Hk; [right|left; reflexivity].
    destruct entry as [ce extra|info|info|info|raw data].
    - destruct b; [|apply HU in H; discriminate].
      split; [reflexivity|]. exists ce, extra. split; [reflexivity|].
      destruct (parent ce) as [p|] eqn:Hp.
      + destruct (CommitEntry_catalog true ce extra p this w Hp)
          as (r & evs & E & _ & Ht).
        rewrite E in H. cbn [fst] in H.
        pose proof (WriteCatalogEntry_NotImplemented_only ce extra this
                      (stamp_world ce p (commit_id this) w)) as Hw.
        rewrite (Ht eq_refl) in Hw. cbn [fst] in Hw.
        destruct (Hw H) as (Hpers & Hun & _). auto.
      + unfold CommitEntry in H. rewrite Hp in H. discriminate.
    - rewrite CommitEntry_row_NotImplemented in H
        by (reflexivity || discriminate). discriminate.
    - rewrite CommitEntry_row_NotImplemented in H
        by (reflexivity || discriminate). discriminate.
    - rewrite CommitEntry_row_NotImplemented in H
        by (reflexivity || discriminate). discriminate.
    - discriminate. }
  (* the exception of the default branch *)
  assert (HO : fst (CommitEntry HAS_LOG entry (this, w))
               = Thrown (NotImplementedException
                           "UndoBuffer - don't know how to commit this type!")
               <-> known_kind entry = false).
  { split.
    - intros H.
      destruct (known_kind entry) eqn:Hk; [|reflexivity].
      assert (Hn : is_NotImplemented (fst (CommitEntry HAS_LOG entry (this, w)))
                   = true) by (rewrite H; reflexivity).
      destruct (HC HAS_LOG Hn) as [?|(-> & ce & extra & -> & _ & _)];
        [discriminate|].
      destruct (parent ce) as [p|] eqn:Hp.
      + destruct (CommitEntry_catalog true ce extra p this w Hp)
          as (r & evs & E & _ & Ht).
        rewrite E in H, Hn. cbn [fst] in H, Hn.
        pose proof (WriteCatalogEntry_NotImplemented_only ce extra this
                      (stamp_world ce p (commit_id this) w)) as Hw.
        rewrite (Ht eq_refl) in Hw. cbn [fst] in Hw.
        destruct (Hw Hn) as (_ & _ & Hne). contradiction.
      + unfold CommitEntry in H. rewrite Hp in H. discriminate.
    - destruct entry as [ce extra|info|info|info|raw data];
        try discriminate. reflexivity. }
  split; [exact HO|]. split; [exact HR|]. split; [exact HR'|].
  split; [exact HU|]. split; [apply HC|].
  split; [intros ce extra H;
          destruct (WriteCatalogEntry_NotImplemented_only ce extra this w H)
            as (? & ? & _); auto|].
  intros [l Hl].
  assert (HW : forall ce extra w0,
             is_NotImplemented (fst (WriteCatalogEntry ce extra (this, w0))) = true
             <-> persisted ce = true /\ unsupported_for_log ce = true).
  { intros ce extra w0.
    destruct (WriteCatalogEntry_NotImplemented ce extra this w0 l Hl) as [-> _].
    apply andb_true_iff. }
  split; [|intros; apply HW].
  split; [apply HC|].
  intros [Hk|(-> & ce & extra & -> & Hpers & Hun)].
  - destruct entry as [ce extra|info|info|info|raw data];
      try discriminate. reflexivity.
  - assert (exists p, parent ce = Some p) as [p Hp].
    { unfold persisted in Hpers. destruct (parent ce) as [p|]; [eauto|].
      rewrite andb_false_r in Hpers. discriminate. }
    destruct (CommitEntry_catalog true ce extra p this w Hp)
      as (r & evs & E & _ & Ht).
    rewrite E. cbn [fst].
    specialize (HW ce extra (stamp_world ce p (commit_id this) w)).
    rewrite (Ht eq_refl) in HW. cbn [fst] in HW. apply HW. auto.
Qed.

Lemma without_log_extend evs w :
  without_log (extend evs w)
  = extend (filter (fun ev => negb (is_log_event ev)) evs) (without_log w).
Proof. unfold without_log, extend. simpl. rewrite filter_app. reflexivity. Qed.

Lemma without_log_marker_for this ti :
  filter (fun ev => negb (is_log_event ev)) (marker_for this ti) = [].
Proof. unfold marker_for. case_decide; reflexivity. Qed.

Lemma with_IsTemporary_unlogged b entry s :
  CommitEntry false (with_IsTemporary b entry) s = CommitEntry false entry s.
Proof. destruct entry; reflexivity. Qed.

(** C9, with the catalog hooks accounted for: when the logging commit of an
    entry returns, the
    commit without a log returns too, leaves the commit state alone, sends
    nothing to the log sink, does not depend on the table's temporary flag,
    and ends with the same visibility (timestamps, cardinalities, version
    numbers and visibility calls) as the logging commit.  Every call that
    is neither a log-sink call nor a catalog hook is a visibility call, so
    the two runs differ in log-sink calls and catalog hooks only, and for
    an entry that is not a catalog change in log-sink calls only. *)
Theorem commit_without_log_same_visibility
    (entry : UndoEntry) (this this1 : CommitState.t) (w w1 : World) (l : ptr) :
  log this = Some l ->
  CommitEntry true entry (this, w) = (Returned tt, (this1, w1)) ->
  let unlogged := CommitEntry false entry (this, w) in
  let w0 := snd (snd unlogged) in
  fst unlogged = Returned tt /\
  fst (snd unlogged) = this /\
  log_events (trace w0) = log_events (trace w) /\
  visibility w1 = visibility w0 /\
  (forall ev, is_visibility_event ev
              = negb (is_log_event ev) && negb (is_hook_event ev)) /\
  (forall b, CommitEntry false (with_IsTemporary b entry) (this, w) = unlogged) /\
  (undo_type entry <> FLAG_CATALOG_ENTRY -> without_log w1 = without_log w0).
Proof.
  intros Hl H unlogged w0. subst w0 unlogged.
  assert (Hvis := is_visibility_event_spec).
  assert (Htmp := fun b => with_IsTemporary_unlogged b entry (this, w)).
  rewrite CommitEntry_unlogged in Htmp |- *.
  destruct entry as [ce extra|info|info|info|raw data].
  - destruct (parent ce) as [p|] eqn:Hp.
    2:{ unfold CommitEntry in H. rewrite Hp in H. discriminate. }
    destruct (CommitEntry_catalog true ce extra p this w Hp)
      as (r & evs & E & _ & EW).
    destruct (WriteCatalogEntry_effects ce extra this
                (stamp_world ce p (commit_id this) w))
      as (r' & evs' & E' & Hsilent & _).
    rewrite (EW eq_refl) in E'. injection E' as -> Hext.
    apply app_inv_head in Hext. subst evs'.
    rewrite E in H. injection H as _ <- <-. simpl.
    repeat split; try reflexivity; try assumption.
    + apply visibility_extend_silent, Hsilent.
    + intros Hc. exfalso. apply Hc. reflexivity.
  - rewrite CommitEntry_insert in H by (rewrite Hl; eauto).
    injection H as <- <-. simpl.
    repeat split; try reflexivity; try assumption.
    + rewrite log_events_app. simpl. unfold log_events at 2. simpl.
      apply app_nil_r.
    + unfold visibility. simpl. rewrite !filter_app.
      destruct (DataTableInfo.IsTemporary (DataTable.info (AppendInfo.table info)));
        reflexivity.
    + intros _. rewrite !without_log_extend.
      destruct (DataTableInfo.IsTemporary (DataTable.info (AppendInfo.table info)));
        reflexivity.
  - rewrite (CommitEntry_delete true info this w l Hl) in H.
    destruct (DataTableInfo.IsTemporary (DataTable.info (DeleteInfo.table info)));
      simpl in H.
    + injection H as <- <-. simpl.
      repeat split; try reflexivity; try assumption.
      rewrite log_events_app. simpl. unfold log_events at 2. simpl.
      apply app_nil_r.
    + destruct (delete_chunk_of info) as [chunk|]; [|discriminate].
      injection H as <- <-. simpl.
      repeat split; try reflexivity; try assumption.
      * rewrite log_events_app. simpl. unfold log_events at 2. simpl.
        apply app_nil_r.
      * unfold visibility. simpl. rewrite !filter_app. simpl.
        unfold marker_for. case_decide; reflexivity.
      * intros _. rewrite !without_log_extend, filter_app,
          without_log_marker_for. reflexivity.
  - rewrite (CommitEntry_update true info this w l Hl) in H.
    destruct (DataTableInfo.IsTemporary
                (ColumnData.table_info
                   (UpdateSegment.column_data (UpdateInfo.segment info))));
      simpl in H.
    + injection H as <- <-. simpl.
      repeat split; try reflexivity; assumption.
    + destruct (update_chunk_of info) as [chunk|]; [|discriminate].
      injection H as <- <-. simpl.
      repeat split; try reflexivity; try assumption.
      * unfold visibility. simpl. rewrite !filter_app. simpl.
        unfold marker_for. case_decide; simpl; rewrite app_nil_r; reflexivity.
      * intros _. unfold without_log. simpl. rewrite !filter_app.
        rewrite without_log_marker_for. simpl. rewrite app_nil_r. reflexivity.
  - discriminate.
Qed.

End CommitStateFacts.

(** * The properties at sample inputs *)

Section Instances.
Import Sample CommitState.

Lemma promotion_preserves_range_and_stats_witness :
  TransientSegment.next persistent = None /\
  exists this,
    TransientSegment.from_persistent to_memory persistent = Returned this /\
    TransientSegment.segment_type this = TransientSegment.TRANSIENT /\
    TransientSegment.start this = 2048 /\
    TransientSegment.count this = 1000 /\
    TransientSegment.stats this = TransientSegment.stats transient.
Proof.
  split; [reflexivity|].
  exact (promotion_preserves_range_and_stats to_memory persistent eq_refl).
Defined.

Lemma RevertAppend_truncates_idempotent_witness :
  TransientSegment.count (TransientSegment.RevertAppend transient 2548) = 500 /\
  TransientSegment.tuple_count
    (TransientSegment.data (TransientSegment.RevertAppend transient 2548)) = 500 /\
  TransientSegment.count (TransientSegment.RevertAppend transient 3048) = 1000.
Proof.
  assert (Hidx : forall z, 0 <= z < 2 ^ 64 -> is_idx_t z) by (intros z H; exact H).
  destruct (RevertAppend_truncates_idempotent transient 2548)
    as (Hc & Ht & _ & Hk);
    try (apply Hidx; simpl; lia); [simpl; lia|].
  split; [exact Hc|]. split; [exact Ht|]. exact Hk.
Defined.

Lemma FetchRow_offset_in_range_witness :
  TransientSegment.FetchRow_offset transient 2050 = 2 /\
  TransientSegment.FetchRow_offset transient 2047 = 2 ^ 64 - 1.
Proof.
  assert (Hs : is_idx_t (TransientSegment.start transient))
    by (unfold is_idx_t, idx_t_modulus; simpl; lia).
  assert (Hr : forall z, - 2 ^ 63 <= z < 2 ^ 63 -> is_row_t z)
    by (intros z H; exact H).
  split.
  - destruct (FetchRow_offset_in_range transient 2050 Hs (Hr 2050 ltac:(simpl; lia)))
      as [Hin _].
    destruct Hin as [E _]; [simpl; lia|]. rewrite E. reflexivity.
  - destruct (FetchRow_offset_in_range transient 2047 Hs (Hr 2047 ltac:(simpl; lia)))
      as [_ Hout].
    destruct Hout as (_ & _ & Hwrap); [simpl; lia|].
    destruct Hwrap as [E _]; [simpl; lia|]. rewrite E. reflexivity.
Defined.

Lemma insert_logged_before_commit_witness :
  CommitEntry true (INSERT_TUPLE (insert_into table_B)) (committer, empty_world)
  = (Returned tt,
     (committer,
      extend [TableWriteToLog 12%positive 0 4;
              TableCommitAppend 12%positive 100 0 4] empty_world)).
Proof.
  assert (Hlog : true = true -> is_Some (log committer))
    by (intros _; exists 1%positive; reflexivity).
  pose proof (insert_logged_before_commit true (insert_into table_B)
                committer empty_world Hlog) as [E _].
  exact E.
Defined.


Lemma commit_then_revert_restores_timestamps_witness :
  let entry := CATALOG_ENTRY renamed (Some 9%N) in
  let w1 := snd (snd (CommitEntry true entry (committer, renaming_world))) in
  let w2 := snd (snd (RevertCommit entry (make transaction_id None, w1))) in
  timestamps w1 !! (50%positive, 52%positive) = Some 100 /\
  timestamps w1 !! (50%positive, 51%positive) = Some 100 /\
  timestamps w2 !! (50%positive, 52%positive) = Some transaction_id /\
  timestamps w2 !! (50%positive, 51%positive) = Some transaction_id /\
  timestamps w2 = timestamps renaming_world.
Proof.
  intros entry w1 w2.
  pose proof (commit_then_revert_restores_timestamps true renamed
                renamed_parent (Some 9%N) committer transaction_id None
                renaming_world eq_refl)
    as (E1 & _ & _ & Hp & Hc & Hsame).
  assert (Hne : entry_name renamed <> entry_name renamed_parent)
    by (simpl; discriminate).
  destruct (Hc Hne) as [Hc1 Hc2].
  split; [subst w1 entry; rewrite E1; apply stamp_entry_parent|].
  split; [exact Hc1|]. split; [exact Hp|]. split; [exact Hc2|].
  apply Hsame; [reflexivity | intros _; reflexivity].
Defined.

Lemma switch_markers_follow_table_changes_witness :
  fst (Commit true log_AABA (committer, empty_world)) = Returned tt /\
  switch_markers (trace (snd (snd (Commit true log_AABA (committer, empty_world)))))
  = [("main", "a"); ("main", "b"); ("main", "a")].
Proof.
  destruct (Commit true log_AABA (committer, empty_world))
    as [o [this' w']] eqn:E.
  assert (o = Returned tt) as -> by (vm_compute in E; congruence).
  split; [reflexivity|].
  assert (Hno : Forall no_logged_insert log_AABA) by (repeat constructor).
  destruct (switch_markers_follow_table_changes log_AABA committer this'
              empty_world w' 1%positive eq_refl Hno E)
    as ((evs & Htr & Hm) & _).
  simpl in Htr |- *. rewrite Htr, Hm. vm_compute. reflexivity.
Defined.

(** C1 fails on a log that mixes a row insertion with
    deletions: the insertion into B is handed to [WriteToLog] without the
    commit state noting the table, so the deletion on A that follows is
    written without a marker although the entry logged before it was on B.
    The sink gets one marker where the tables A, B, A call for three. *)
Lemma insertion_hides_table_change :
  let chunk := {| chunk_types := [LOGICAL_ROW_TYPE];
                  chunk_data := [[2051; 2053]]; chunk_count := 2 |} in
  let result := Commit true log_ABA_insert (committer, empty_world) in
  fst result = Returned tt /\
  trace (snd (snd result))
  = [LogWriteSetTable "main" "a";
     LogWriteDelete chunk; VersionCommitDelete 21%positive 100 [3; 5] 2;
     TableWriteToLog 12%positive 0 4; TableCommitAppend 12%positive 100 0 4;
     LogWriteDelete chunk; VersionCommitDelete 21%positive 100 [3; 5] 2] /\
  omap logged_table log_ABA_insert = [info_A; info_B; info_A] /\
  markers_from None (omap logged_table log_ABA_insert) = [info_A; info_B; info_A] /\
  switch_markers (trace (snd (snd result))) = [("main", "a")] /\
  switch_markers (trace (snd (snd result)))
  <> map table_names (markers_from None (omap logged_table log_ABA_insert)).
Proof.
  vm_compute. repeat split. discriminate.
Qed.

Lemma NotImplemented_exactly_when_witness :
  is_NotImplemented
    (fst (CommitEntry true (CATALOG_ENTRY (dropped INDEX_ENTRY false) None)
            (committer, empty_world))) = true /\
  is_NotImplemented
    (fst (CommitEntry false (CATALOG_ENTRY (dropped INDEX_ENTRY false) None)
            (committer, empty_world))) <> true /\
  is_NotImplemented
    (fst (RevertCommit (OTHER_UNDO_FLAG 0 1%positive)
            (make transaction_id None, empty_world)))
  = true.
Proof.
  assert (Hlog : is_Some (log committer)) by (exists 1%positive; reflexivity).
  pose proof (NotImplemented_exactly_when true
                (CATALOG_ENTRY (dropped INDEX_ENTRY false) None)
                committer empty_world)
    as (_ & _ & _ & Hunlogged & _ & _ & Hattached).
  destruct (Hattached Hlog) as [Hlogged _].
  pose proof (NotImplemented_exactly_when false
                (OTHER_UNDO_FLAG 0 1%positive)
                (make transaction_id None) empty_world)
    as (_ & _ & Hrevert & _).
  split; [|split].
  - apply Hlogged. right. split; [reflexivity|].
    exists (dropped INDEX_ENTRY false), None. repeat split.
  - intros H. apply Hunlogged in H. discriminate.
  - apply Hrevert. reflexivity.
Defined.

(** C7 fails twice: a temporary entry dropped with an
    unhandled type makes [WriteCatalogEntry] return, not throw; and
    [CommitEntry] throws a [NotImplementedException] for a catalog change,
    one of the four known kinds, when the change it logs is rejected. *)
Lemma NotImplemented_beyond_unknown_kinds :
  unsupported_for_log (dropped INDEX_ENTRY true) = true /\
  fst (WriteCatalogEntry (dropped INDEX_ENTRY true) None (committer, empty_world))
  = Returned tt /\
  known_kind (CATALOG_ENTRY (dropped INDEX_ENTRY false) None) = true /\
  fst (CommitEntry true (CATALOG_ENTRY (dropped INDEX_ENTRY false) None)
         (committer, empty_world))
  = Thrown (NotImplementedException "Don't know how to drop this type!").
Proof. repeat split. Qed.

Lemma commit_without_log_same_visibility_witness :
  let entry := DELETE_TUPLE (delete_from table_A) in
  visibility (snd (snd (CommitEntry true entry (committer, empty_world))))
  = visibility (snd (snd (CommitEntry false entry (committer, empty_world)))) /\
  log_events (trace (snd (snd (CommitEntry false entry (committer, empty_world)))))
  = [].
Proof.
  intros entry.
  destruct (CommitEntry true entry (committer, empty_world))
    as [o [this1 w1]] eqn:E.
  assert (o = Returned tt) as -> by (vm_compute in E; congruence).
  pose proof (commit_without_log_same_visibility entry committer this1
                empty_world w1 1%positive eq_refl E)
    as (_ & _ & Hlog & Hvis & _).
  split; [exact Hvis | exact Hlog].
Defined.

(** C9 fails on a dropped table: the logging commit calls the
    entry's [CommitDrop] hook, which is no log-sink call, and the commit
    without a log does not. *)
Lemma catalog_hook_only_with_log :
  let entry := CATALOG_ENTRY (dropped TABLE_ENTRY false) None in
  let logged := CommitEntry true entry (committer, empty_world) in
  let unlogged := CommitEntry false entry (committer, empty_world) in
  fst logged = Returned tt /\ fst unlogged = Returned tt /\
  trace (snd (snd logged))
  = [EntryCommitDrop 41%positive; LogWriteDropTable 41%positive] /\
  trace (snd (snd unlogged)) = [] /\
  trace (without_log (snd (snd logged))) = [EntryCommitDrop 41%positive] /\
  without_log (snd (snd logged)) <> without_log (snd (snd unlogged)).
Proof.
  vm_compute. repeat split. discriminate.
Qed.

End Instances.

(** * Further properties of the commit state *)

Section CommitStateMore.
Import CommitState.
Local Open Scope commit_scope.

Ltac step :=
  cbv beta iota zeta delta
    [bind ret throw effect this_commit_id log_call D_ASSERT_log D_ASSERT
     from_array Deserialize WriteToLog fst snd].

Lemma to_idx_t_add_r a b : to_idx_t (a + to_idx_t b) = to_idx_t (a + b).
Proof. unfold to_idx_t. apply Zplus_mod_idemp_r. Qed.

Lemma delete_chunk_of_record (info : DeleteInfo.t) :
  0 <= DeleteInfo.count info <= STANDARD_VECTOR_SIZE ->
  DeleteInfo.count info <= Z.of_nat (length (DeleteInfo.rows info)) ->
  Forall (fun r => 0 <= DeleteInfo.base_row info + r < 2 ^ 63)
         (take (Z.to_nat (DeleteInfo.count info)) (DeleteInfo.rows info)) ->
  delete_chunk_of info = Some (delete_record info).
Proof.
  intros Hc Hl Hrows. unfold delete_chunk_of, delete_record.
  rewrite decide_True by lia. do 2 f_equal. f_equal.
  apply List.map_ext_Forall.
  eapply Forall_impl; [exact Hrows|]. simpl. intros r Hr.
  rewrite to_idx_t_add_r.
  rewrite to_idx_t_small by (unfold is_idx_t, idx_t_modulus; lia).
  apply to_row_t_small. unfold is_row_t. lia.
Qed.

(** X1: committing a row deletion with a log on a table that is not temporary
    writes (after the table marker, when one is due) one delete record with
    the [count] deleted rows as table row ids [base_row + offset], in the
    order of the entry, and only then marks the deletion committed, passing
    the offsets as the entry has them. *)
Theorem delete_logged_then_committed
    (info : DeleteInfo.t) (this : CommitState.t) (w : World) (l : ptr) :
  let ti := DataTable.info (DeleteInfo.table info) in
  log this = Some l ->
  DataTableInfo.IsTemporary ti = false ->
  0 <= DeleteInfo.count info <= STANDARD_VECTOR_SIZE ->
  DeleteInfo.count info <= Z.of_nat (length (DeleteInfo.rows info)) ->
  Forall (fun r => 0 <= DeleteInfo.base_row info + r < 2 ^ 63)
         (take (Z.to_nat (DeleteInfo.count info)) (DeleteInfo.rows info)) ->
  CommitEntry true (DELETE_TUPLE info) (this, w)
  = (Returned tt,
     (switched_state ti this,
      extend (marker_for this ti
              ++ [LogWriteDelete (delete_record info);
                  VersionCommitDelete (DeleteInfo.vinfo info) (commit_id this)
                    (DeleteInfo.rows info) (DeleteInfo.count info)]) w)) /\
  Z.of_nat (length (default [] (head (chunk_data (delete_record info)))))
  = DeleteInfo.count info.
Proof.
  intros ti Hl Htmp Hc Hlen Hrows. split.
  - rewrite (CommitEntry_delete true info this w l Hl). fold ti.
    rewrite Htmp. simpl.
    rewrite (delete_chunk_of_record info Hc Hlen Hrows). reflexivity.
  - simpl. rewrite length_map, length_take. lia.
Qed.

(** X2: committing a row update, whenever it returns and whether or not a
    log is attached, stamps the update-chain entry with the commit id, and
    without a log it always returns; reverting it with a commit state that
    carries the transaction id stamps that id back, changes no other version
    number and writes nothing, so the version numbers are those before the
    commit whenever the entry carried the transaction id then. *)
Theorem update_commit_then_revert_restores_version
    (HAS_LOG : bool) (info : UpdateInfo.t) (committer c1 : CommitState.t)
    (transaction_id : Z) (log' : option ptr) (w w1 : World) :
  CommitEntry HAS_LOG (UPDATE_TUPLE info) (committer, w) = (Returned tt, (c1, w1)) ->
  let reverter := make transaction_id log' in
  let w2 := set_version_number (UpdateInfo.addr info) transaction_id w1 in
  let unlogged := CommitEntry false (UPDATE_TUPLE info) (committer, w) in
  version_number w1
    = <[UpdateInfo.addr info := commit_id committer]> (version_number w) /\
  version_number w1 !! UpdateInfo.addr info = Some (commit_id committer) /\
  RevertCommit (UPDATE_TUPLE info) (reverter, w1) = (Returned tt, (reverter, w2)) /\
  trace w2 = trace w1 /\
  version_number w2
    = <[UpdateInfo.addr info := transaction_id]> (version_number w) /\
  version_number w2 !! UpdateInfo.addr info = Some transaction_id /\
  (forall a, a <> UpdateInfo.addr info ->
             version_number w2 !! a = version_number w !! a) /\
  (version_number w !! UpdateInfo.addr info = Some transaction_id ->
   version_number w2 = version_number w) /\
  fst unlogged = Returned tt /\
  version_number (snd (snd unlogged))
    = <[UpdateInfo.addr info := commit_id committer]> (version_number w) /\
  trace (snd (snd unlogged)) = trace w.
Proof.
  intros H reverter w2 unlogged.
  assert (E1 : version_number w1
               = <[UpdateInfo.addr info := commit_id committer]> (version_number w)).
  { destruct (log committer) as [l|] eqn:Hl.
    - rewrite (CommitEntry_update HAS_LOG info committer w l Hl) in H.
      repeat case_match; try discriminate; injection H as _ <-; reflexivity.
    - unfold CommitEntry in H.
      destruct (HAS_LOG && negb (DataTableInfo.IsTemporary
                                   (ColumnData.table_info
                                      (UpdateSegment.column_data
                                         (UpdateInfo.segment info))))).
      + unfold WriteUpdate, bind, D_ASSERT_log in H. cbn [fst] in H.
        rewrite Hl in H. discriminate.
      + injection H as _ <-. reflexivity. }
  assert (E2 : version_number w2
               = <[UpdateInfo.addr info := transaction_id]> (version_number w)).
  { subst w2. simpl. rewrite E1. apply insert_insert_eq. }
  split; [exact E1|].
  split; [rewrite E1; apply lookup_insert_eq|].
  split; [reflexivity|]. split; [reflexivity|].
  split; [exact E2|].
  split; [rewrite E2; apply lookup_insert_eq|].
  split; [intros a Ha; rewrite E2; apply lookup_insert_ne; congruence|].
  split; [intros Hpre; rewrite E2; apply insert_id, Hpre|].
  repeat split.
Qed.

Lemma same_identity_refl this : same_identity this this.
Proof. split; reflexivity. Qed.

Lemma same_identity_switched ti this : same_identity this (switched_state ti this).
Proof. split; reflexivity. Qed.

Lemma stamp_entry_other ce p id ts k :
  k <> (entry_set ce, entry_addr p) ->
  k <> (entry_set ce, entry_addr ce) ->
  stamp_entry ce p id ts !! k = ts !! k.
Proof.
  intros Hp Hc. unfold stamp_entry.
  destruct (negb (String.eqb (entry_name ce) (entry_name p)));
    rewrite ?lookup_insert_ne by congruence; reflexivity.
Qed.

(** The world a commit leaves behind: the calls it made appended to the
    world it started from, after the one field its kind of entry stamps. *)
Lemma CommitEntry_world HAS_LOG entry this w :
  exists r this' evs,
    same_identity this this' /\
    (CommitEntry HAS_LOG entry (this, w) = (r, (this', extend evs w)) \/
     (exists ce extra p,
        entry = CATALOG_ENTRY ce extra /\ parent ce = Some p /\
        CommitEntry HAS_LOG entry (this, w)
        = (r, (this', extend evs (stamp_world ce p (commit_id this) w)))) \/
     (exists info,
        entry = UPDATE_TUPLE info /\
        CommitEntry HAS_LOG entry (this, w)
        = (r, (this',
               set_version_number (UpdateInfo.addr info) (commit_id this)
                 (extend evs w))))).
Proof.
  destruct entry as [ce extra|info|info|info|raw data].
  - destruct (parent ce) as [p|] eqn:Hp.
    + destruct (CommitEntry_catalog HAS_LOG ce extra p this w Hp)
        as (r & evs & E & _).
      exists r, this, evs. split; [apply same_identity_refl|].
      right. left. exists ce, extra, p. auto.
    + exists (Thrown AssertionFailure), this, [].
      split; [apply same_identity_refl|]. left.
      unfold CommitEntry. rewrite Hp, extend_nil. reflexivity.
  - destruct (log this) as [l|] eqn:Hl.
    + eexists _, this, _. split; [apply same_identity_refl|]. left.
      apply CommitEntry_insert. rewrite Hl. eauto.
    + destruct (HAS_LOG && negb (DataTableInfo.IsTemporary
                                   (DataTable.info (AppendInfo.table info))))
        eqn:Hlogged.
      * exists (Thrown NullPointer), this, [].
        split; [apply same_identity_refl|]. left.
        unfold CommitEntry. rewrite Hlogged. step. rewrite Hl, extend_nil.
        reflexivity.
      * eexists _, this, [_]. split; [apply same_identity_refl|]. left.
        unfold CommitEntry. rewrite Hlogged. step. reflexivity.
  - destruct (log this) as [l|] eqn:Hl.
    + rewrite (CommitEntry_delete HAS_LOG info this w l Hl).
      repeat case_match; eexists _, _, _;
        (split; [|left; reflexivity]);
        first [apply same_identity_refl | apply same_identity_switched].
    + destruct (HAS_LOG && negb (DataTableInfo.IsTemporary
                                   (DataTable.info (DeleteInfo.table info))))
        eqn:Hlogged.
      * exists (Thrown AssertionFailure), this, [].
        split; [apply same_identity_refl|]. left.
        unfold CommitEntry, WriteDelete. rewrite Hlogged. step.
        rewrite Hl, extend_nil. reflexivity.
      * eexists _, this, [_]. split; [apply same_identity_refl|]. left.
        unfold CommitEntry. rewrite Hlogged. step. reflexivity.
  - destruct (log this) as [l|] eqn:Hl.
    + rewrite (CommitEntry_update HAS_LOG info this w l Hl).
      repeat case_match.
      * eexists _, _, _. split; [apply same_identity_switched|].
        right. right. exists info. split; reflexivity.
      * eexists _, _, _. split; [apply same_identity_switched|].
        left. reflexivity.
      * eexists _, _, []. split; [apply same_identity_refl|].
        right. right. exists info. rewrite extend_nil. split; reflexivity.
    + destruct (HAS_LOG && negb (DataTableInfo.IsTemporary
                                   (ColumnData.table_info
                                      (UpdateSegment.column_data
                                         (UpdateInfo.segment info)))))
        eqn:Hlogged.
      * exists (Thrown AssertionFailure), this, [].
        split; [apply same_identity_refl|]. left.
        unfold CommitEntry, WriteUpdate. rewrite Hlogged. step.
        rewrite Hl, extend_nil. reflexivity.
      * eexists _, this, []. split; [apply same_identity_refl|].
        right. right. exists info. rewrite extend_nil.
        split; [reflexivity|].
        unfold CommitEntry. rewrite Hlogged. reflexivity.
  - eexists _, this, []. split; [apply same_identity_refl|]. left.
    rewrite extend_nil. reflexivity.
Qed.

(** X3: whatever the entry, the instantiation and the outcome (an exception
    included), a commit keeps the log pointer and the commit id of the commit
    state, never changes a table's cardinality, changes catalog timestamps
    only for a catalog change and only at the entry and its parent, and
    changes a version number only for a row update and only at its
    update-chain entry. *)
Theorem CommitEntry_touches_only_its_kind
    (HAS_LOG : bool) (entry : UndoEntry) (this : CommitState.t) (w : World) :
  let result := CommitEntry HAS_LOG entry (this, w) in
  let this' := fst (snd result) in
  let w' := snd (snd result) in
  same_identity this this' /\
  cardinality w' = cardinality w /\
  (undo_type entry <> FLAG_CATALOG_ENTRY -> timestamps w' = timestamps w) /\
  (forall ce extra p k,
     entry = CATALOG_ENTRY ce extra -> parent ce = Some p ->
     k <> (entry_set ce, entry_addr p) -> k <> (entry_set ce, entry_addr ce) ->
     timestamps w' !! k = timestamps w !! k) /\
  (undo_type entry <> FLAG_UPDATE_TUPLE -> version_number w' = version_number w) /\
  (forall info a,
     entry = UPDATE_TUPLE info -> a <> UpdateInfo.addr info ->
     version_number w' !! a = version_number w !! a).
Proof.
  intros result this' w'. subst this' w' result.
  destruct (CommitEntry_world HAS_LOG entry this w)
    as (r & this' & evs & Hid & [E|[(ce & extra & p & -> & Hp & E)|(info & -> & E)]]);
    rewrite E; simpl.
  - repeat split; try reflexivity; try apply Hid.
  - repeat split; try reflexivity; try apply Hid.
    + intros Hc. exfalso. apply Hc. reflexivity.
    + intros ce' extra' p' k Heq Hp' Hk1 Hk2. injection Heq as <- <-.
      rewrite Hp in Hp'. injection Hp' as <-.
      apply stamp_entry_other; assumption.
  - repeat split; try reflexivity; try apply Hid.
    + intros Hc. exfalso. apply Hc. reflexivity.
    + intros info' a Heq Ha. injection Heq as <-.
      apply lookup_insert_ne. congruence.
Qed.

(** X4: reverting a row deletion adds the entry's count to the cardinality of
    the entry's table, modulo 2^64, and re-marks the version info with the id
    the commit state carries; no other cardinality changes, and no other
    kind of entry changes any cardinality. *)
Theorem RevertCommit_restores_cardinality
    (entry : UndoEntry) (this : CommitState.t) (w : World) :
  let w' := snd (snd (RevertCommit entry (this, w))) in
  (undo_type entry <> FLAG_DELETE_TUPLE -> cardinality w' = cardinality w) /\
  (forall info,
     entry = DELETE_TUPLE info ->
     let a := DataTableInfo.addr (DataTable.info (DeleteInfo.table info)) in
     cardinality w' !!! a = to_idx_t (cardinality w !!! a + DeleteInfo.count info) /\
     (forall b, b <> a -> cardinality w' !! b = cardinality w !! b) /\
     trace w' = trace w ++ [VersionCommitDelete (DeleteInfo.vinfo info)
                              (commit_id this) (DeleteInfo.rows info)
                              (DeleteInfo.count info)] /\
     timestamps w' = timestamps w /\ version_number w' = version_number w).
Proof.
  intros w'. subst w'. split.
  - destruct entry as [ce extra|info|info|info|raw data]; intros Hk;
      try reflexivity; [|exfalso; apply Hk; reflexivity].
    unfold RevertCommit. step. destruct (parent ce) as [p|]; step; [|reflexivity].
    destruct (negb (String.eqb (entry_name ce) (entry_name p))); reflexivity.
  - intros info -> a. unfold RevertCommit. step. simpl. fold a.
    split; [apply lookup_total_insert_eq|].
    split; [intros b Hb; apply lookup_insert_ne; congruence|].
    repeat split.
Qed.

Lemma WriteCatalogEntry_temporary ce extra s :
  temporary_entry (CATALOG_ENTRY ce extra) = true ->
  parent ce <> None ->
  WriteCatalogEntry ce extra s = (Returned tt, s).
Proof.
  simpl. intros Htmp Hp. unfold WriteCatalogEntry.
  destruct (entry_temporary ce); [reflexivity|].
  destruct (parent ce) as [p|]; [|contradiction].
  simpl in Htmp. rewrite Htmp. reflexivity.
Qed.

(** X5: an entry on a temporary table, and a catalog change whose entry or
    parent is temporary, is committed by the logging instantiation exactly as
    by the one without a log: same outcome, same commit state, same world.
    Nothing reaches the log sink, no catalog hook runs, and the log pointer
    is not even needed. *)
Theorem temporary_entry_commits_without_log
    (entry : UndoEntry) (s : CommitState.t * World) :
  temporary_entry entry = true ->
  CommitEntry true entry s = CommitEntry false entry s.
Proof.
  intros Htmp.
  destruct entry as [ce extra|info|info|info|raw data]; simpl in Htmp.
  - unfold CommitEntry. destruct (parent ce) as [p|] eqn:Hp; [|reflexivity].
    unfold bind. destruct s as [this w]. simpl.
    destruct (negb (String.eqb (entry_name ce) (entry_name p))); simpl;
      (rewrite WriteCatalogEntry_temporary;
       [reflexivity | simpl; rewrite Hp; exact Htmp | rewrite Hp; discriminate]).
  - unfold CommitEntry. rewrite Htmp. reflexivity.
  - unfold CommitEntry. rewrite Htmp. reflexivity.
  - unfold CommitEntry. rewrite Htmp. reflexivity.
  - discriminate.
Qed.


(** X7: switching to the table the commit state is already on is a no-op:
    two calls of [SwitchTable] for one table in a row do what the first one
    does alone, so at most one marker is written; and a call that returns
    leaves the commit state on that table. *)
Theorem SwitchTable_idempotent
    (ti : DataTableInfo.t) (op1 op2 : UndoFlags) (s : CommitState.t * World) :
  bind (SwitchTable ti op1) (fun _ => SwitchTable ti op2) s = SwitchTable ti op1 s /\
  (fst (SwitchTable ti op1 s) = Returned tt ->
   current_table_info (fst (snd (SwitchTable ti op1 s)))
   = Some (DataTableInfo.addr ti)).
Proof.
  destruct s as [this w]. unfold bind, SwitchTable. simpl.
  destruct (decide (current_table_info this = Some (DataTableInfo.addr ti)))
    as [Hcur|Hcur].
  - simpl. rewrite decide_True by exact Hcur. split; [reflexivity|].
    intros _. exact Hcur.
  - step. destruct (log this) as [l|]; simpl.
    + rewrite decide_True by reflexivity. split; reflexivity.
    + split; [reflexivity | discriminate].
Qed.

(** X8: when the logging commit of an entry returns, it has written at most
    one table marker, it has written one exactly when it moved the commit
    state to another table, and the commit state is then on the table of the
    entry if that is a logged deletion or update and where it was
    otherwise. *)
Theorem marker_written_iff_table_changes
    (entry : UndoEntry) (this this' : CommitState.t) (w w' : World) (l : ptr) :
  log this = Some l ->
  CommitEntry true entry (this, w) = (Returned tt, (this', w')) ->
  current_table_info this'
  = match switched_table entry with
    | Some ti => Some (DataTableInfo.addr ti)
    | None => current_table_info this
    end /\
  exists evs,
    trace w' = trace w ++ evs /\
    (length (switch_markers evs) <= 1)%nat /\
    (switch_markers evs = [] <-> current_table_info this' = current_table_info this).
Proof.
  intros Hl H.
  pose proof (CommitEntry_logged_shape entry this w l this' w' Hl H) as Hshape.
  destruct (switched_table entry) as [ti|].
  - destruct Hshape as (-> & record & rest & Htr & _ & Hm).
    split; [reflexivity|].
    exists (marker_for this ti ++ record :: rest). split; [exact Htr|].
    rewrite switch_markers_app, Hm, app_nil_r. simpl.
    unfold marker_for. case_decide as Hcur; simpl.
    + split; [lia|]. split; [intros _; symmetry; exact Hcur | reflexivity].
    + split; [lia|]. split; [discriminate|]. intros Heq. congruence.
  - destruct Hshape as (-> & evs & Htr & Hm).
    split; [reflexivity|]. exists evs. split; [exact Htr|].
    rewrite Hm. simpl. split; [lia|]. split; reflexivity.
Qed.

End CommitStateMore.

(** * Further properties of transient segments *)

Section TransientSegmentMore.
Import TransientSegment.

(** X9: appending to a segment and then reverting to the row that was the
    end of the segment before brings the row count and the data block's
    tuple count back, whatever the block appended, and keeps the start row;
    the statistics stay as the append left them: [RevertAppend] does not
    restore them. *)
Theorem Append_then_RevertAppend
    (data_Append :
       SegmentStatistics -> UncompressedSegment -> list Z -> Z -> Z ->
       Z * SegmentStatistics * UncompressedSegment)
    (this : t) (append_data : list Z) (offset count_ : Z) :
  is_idx_t (start this) -> is_idx_t (count this) ->
  let appended := fst (Append data_Append this append_data offset count_) in
  let this' := snd (Append data_Append this append_data offset count_) in
  let reverted := RevertAppend this' (to_idx_t (start this + count this)) in
  appended = fst (fst (data_Append (stats this) (data this) append_data offset count_)) /\
  count this' = to_idx_t (count this + appended) /\
  count reverted = count this /\
  tuple_count (data reverted) = count this /\
  start reverted = start this /\
  stats reverted = stats this'.
Proof.
  intros Hs Hc appended this' reverted.
  subst reverted this' appended. unfold Append.
  destruct (data_Append (stats this) (data this) append_data offset count_)
    as [[appended stats'] data'].
  simpl.
  assert (E : to_idx_t (to_idx_t (start this + count this) - start this)
              = count this).
  { rewrite to_idx_t_sub_l.
    replace (start this + count this - start this) with (count this) by lia.
    apply to_idx_t_small, Hc. }
  repeat split; exact E.
Qed.

(** X10: for a segment whose range fits the row id type, the offset
    [FetchRow] hands to the data block lies inside [[0, count)] exactly when
    the row id lies inside the segment: a row id below the start (a negative
    one included) or past the end never yields an offset that looks valid. *)
Theorem FetchRow_offset_valid_iff (this : t) (row_id : Z) :
  is_idx_t (start this) -> is_row_t row_id ->
  0 <= count this -> start this + count this <= 2 ^ 63 ->
  (0 <= FetchRow_offset this row_id < count this
   <-> start this <= row_id < start this + count this).
Proof.
  intros Hs Hr Hc Hmax. unfold FetchRow_offset. rewrite to_idx_t_sub_l.
  unfold is_idx_t, is_row_t, idx_t_modulus in *.
  destruct (Z_lt_le_dec row_id (start this)) as [Hlt|Hge].
  - rewrite to_idx_t_wrap_once by (unfold idx_t_modulus; lia).
    unfold idx_t_modulus. lia.
  - rewrite to_idx_t_small by (unfold is_idx_t, idx_t_modulus; lia). lia.
Qed.

End TransientSegmentMore.

(** * Properties of the pandas scan *)

Section PandasScanFacts.
Import PandasScan.

Lemma PANDAS_PARTITION_COUNT_value : PANDAS_PARTITION_COUNT = 51200.
Proof. reflexivity. Qed.

(** X11: under the lock, [PandasScanParallelStateNext] succeeds exactly when
    rows are left; it then hands out the non-empty range that starts at the
    shared position and holds at most [PANDAS_PARTITION_COUNT] rows, never
    past the last row, and moves the position to the end of that range; when
    it fails it changes neither the state nor the position. *)
Theorem PandasScanParallelStateNext_hands_out
    (row_count : Z) (state : PandasScanState) (position : Z) :
  0 <= position -> row_count + PANDAS_PARTITION_COUNT <= 2 ^ 64 ->
  let result := PandasScanParallelStateNext row_count state position in
  let ok := fst (fst result) in
  let state' := snd (fst result) in
  let position' := snd result in
  (ok = true <-> position < row_count) /\
  (ok = false -> state' = state /\ position' = position) /\
  (ok = true ->
     start state' = position /\ end_ state' = position' /\
     position' = Z.min (position + PANDAS_PARTITION_COUNT) row_count /\
     start state' < end_ state' <= row_count /\
     end_ state' - start state' <= PANDAS_PARTITION_COUNT /\
     column_ids state' = column_ids state).
Proof.
  intros Hpos Hmax result ok state' position'.
  subst ok state' position' result. unfold PandasScanParallelStateNext.
  rewrite PANDAS_PARTITION_COUNT_value in *.
  case_decide as Hdone; simpl.
  - split; [split; [discriminate | lia]|]. split; [auto | discriminate].
  - rewrite (to_idx_t_small (position + 51200))
      by (unfold is_idx_t, idx_t_modulus; lia).
    split; [split; [lia | reflexivity]|]. split; [discriminate|].
    intros _. case_decide; simpl; repeat split; try reflexivity; lia.
Qed.

Lemma handed_out_rows (fuel : nat) :
  forall row_count state position,
    0 <= position <= row_count ->
    row_count + PANDAS_PARTITION_COUNT <= 2 ^ 64 ->
    row_count - position <= Z.of_nat fuel * PANDAS_PARTITION_COUNT ->
    let parts := handed_out fuel row_count state position in
    rows_of parts = seqZ position (row_count - position) /\
    Z.of_nat (length parts)
    = (row_count - position + PANDAS_PARTITION_COUNT - 1) / PANDAS_PARTITION_COUNT /\
    Forall (fun r => 0 < snd r - fst r <= PANDAS_PARTITION_COUNT) parts.
Proof.
  rewrite PANDAS_PARTITION_COUNT_value.
  induction fuel as [|fuel IH]; intros row_count state position Hpos Hmax Hfuel.
  - assert (row_count = position) as -> by lia.
    simpl. rewrite Z.sub_diag. split; [reflexivity|].
    split; [reflexivity | constructor].
  - cbn [handed_out]. unfold PandasScanParallelStateNext.
    rewrite PANDAS_PARTITION_COUNT_value.
    case_decide as Hdone.
    + assert (row_count = position) as -> by lia.
      simpl. rewrite Z.sub_diag. split; [reflexivity|].
      split; [reflexivity | constructor].
    + rewrite (to_idx_t_small (position + 51200))
        by (unfold is_idx_t, idx_t_modulus; lia).
      cbn [start end_].
      set (position' := if decide (row_count < position + 51200)
                        then row_count else position + 51200).
      assert (Hp' : position < position' <= row_count /\
                    position' - position <= 51200 /\
                    (position' = row_count \/ position' = position + 51200))
        by (subst position'; case_decide; lia).
      specialize (IH row_count
                    {| start := position; end_ := position';
                       column_ids := column_ids state |} position').
      destruct IH as (Hrows & Hlen & Hall); [lia | exact Hmax | lia |].
      split; [|split].
      * unfold rows_of in *. cbn [map concat fst snd]. rewrite Hrows.
        replace (row_count - position)
          with ((position' - position) + (row_count - position')) by lia.
        rewrite seqZ_app by lia.
        replace (position + (position' - position)) with position' by lia.
        reflexivity.
      * cbn [length]. rewrite Nat2Z.inj_succ, Hlen.
        destruct Hp' as (Hlt & Hsz & Hcase). destruct Hcase as [Hcase|Hcase];
          rewrite Hcase in *.
        -- replace (row_count - row_count + 51200 - 1) with 51199 by lia.
           change (51199 / 51200) with 0. change (Z.succ 0) with 1.
           apply (Z.div_unique _ _ 1 (row_count - position - 1)); lia.
        -- replace (row_count - position + 51200 - 1)
             with ((row_count - (position + 51200) + 51200 - 1) + 1 * 51200)
             by lia.
           rewrite Z.div_add by lia. lia.
      * constructor; [simpl; lia | exact Hall].
Qed.

(** X12: starting from position 0, the ranges handed out by successive calls
    enumerate the rows [0 .. row_count - 1] exactly once and in order; each
    range is non-empty and holds at most [PANDAS_PARTITION_COUNT] rows; there
    are [ceil (row_count / PANDAS_PARTITION_COUNT)] of them, which is at most
    [PandasScanMaxThreads]; that many calls are enough to hand out all of
    them. *)
Theorem handed_out_partitions_rows
    (row_count : Z) (state : PandasScanState) (fuel : nat) :
  0 <= row_count -> row_count + PANDAS_PARTITION_COUNT <= 2 ^ 64 ->
  PandasScanMaxThreads row_count <= Z.of_nat fuel ->
  let parts := handed_out fuel row_count state 0 in
  rows_of parts = seqZ 0 row_count /\
  Z.of_nat (length parts)
  = (row_count + PANDAS_PARTITION_COUNT - 1) / PANDAS_PARTITION_COUNT /\
  Z.of_nat (length parts) <= PandasScanMaxThreads row_count /\
  Forall (fun r => 0 < snd r - fst r <= PANDAS_PARTITION_COUNT) parts.
Proof.
  intros Hrc Hmax Hfuel parts. subst parts.
  assert (HP : PANDAS_PARTITION_COUNT = 51200) by reflexivity.
  assert (Hthreads : PandasScanMaxThreads row_count = row_count / 51200 + 1).
  { unfold PandasScanMaxThreads. rewrite HP. apply to_idx_t_small.
    unfold is_idx_t, idx_t_modulus.
    assert (0 <= row_count / 51200 <= row_count).
    { split; [apply Z.div_pos; lia|].
      apply Z.div_le_upper_bound; lia. }
    rewrite HP in Hmax. lia. }
  rewrite Hthreads in *.
  assert (Hdiv : row_count < (row_count / 51200 + 1) * 51200).
  { pose proof (Z.div_mod row_count 51200 ltac:(lia)).
    pose proof (Z.mod_pos_bound row_count 51200 ltac:(lia)). lia. }
  destruct (handed_out_rows fuel row_count state 0) as (Hrows & Hlen & Hall);
    [lia | exact Hmax | rewrite HP, Z.sub_0_r; nia |].
  rewrite Z.sub_0_r in *.
  split; [exact Hrows|]. split; [exact Hlen|]. split; [|exact Hall].
  rewrite Hlen, HP.
  replace (row_count / 51200 + 1) with ((row_count + 1 * 51200) / 51200)
    by (rewrite Z.div_add by lia; reflexivity).
  apply Z.div_le_mono; lia.
Qed.

(** X13: [PandasProgress] reports 100 for an empty frame; otherwise, as long
    as no more lines were read than the frame has and the product does not
    overflow, it reports the percentage [lines_read * 100 / row_count]
    rounded down, between 0 and 100, and 100 only when every line was
    read. *)
Theorem PandasProgress_percentage (row_count lines_read : Z) :
  0 < row_count -> 0 <= lines_read <= row_count -> lines_read * 100 < 2 ^ 64 ->
  PandasProgress 0 lines_read = 100 /\
  PandasProgress row_count lines_read = lines_read * 100 / row_count /\
  0 <= PandasProgress row_count lines_read <= 100 /\
  (PandasProgress row_count lines_read = 100 <-> lines_read = row_count).
Proof.
  intros Hrc Hlr Hov. split; [reflexivity|].
  assert (Hq : 0 <= lines_read * 100 / row_count <= 100).
  { split; [apply Z.div_pos; lia|].
    apply Z.div_le_upper_bound; lia. }
  assert (E : PandasProgress row_count lines_read = lines_read * 100 / row_count).
  { unfold PandasProgress. rewrite decide_False by lia.
    rewrite to_idx_t_small by (unfold is_idx_t, idx_t_modulus; lia).
    unfold to_int. rewrite Z.mod_small; lia. }
  rewrite E. split; [reflexivity|]. split; [exact Hq|]. split.
  - intros H100.
    pose proof (Z.mul_div_le (lines_read * 100) row_count Hrc) as Hle.
    rewrite H100 in Hle. lia.
  - intros ->. rewrite Z.mul_comm. apply Z.div_mul. lia.
Qed.

(** X14: [ConvertPandasType] accepts exactly the dtype names it lists (the
    capitalised nullable integer names included, capitalised float names
    not); for an accepted name the column type it returns is the one that
    belongs to the pandas type it returns, and that is never the timestamp
    type; for any other name it throws "unsupported python type" followed by
    the name. *)
Theorem ConvertPandasType_accepts_known_dtypes (col_type : string) :
  (In col_type known_dtypes ->
   exists ty, ConvertPandasType col_type = Ok (sql_of_pandas ty, ty) /\
              ty <> TIMESTAMP) /\
  (~ In col_type known_dtypes ->
   ConvertPandasType col_type
   = runtime_error ("unsupported python type " +:+ col_type)).
Proof.
  unfold ConvertPandasType, known_dtypes.
  repeat match goal with
         | |- context [String.eqb col_type ?lit] =>
             destruct (String.eqb_spec col_type lit) as [->|?];
             [simpl;
              split;
              [intros _;
               match goal with
               | |- exists ty, Ok (_, ?p) = _ /\ _ =>
                   exists p; split; [reflexivity | discriminate]
               end
              |intros Hn; exfalso; apply Hn; simpl;
               repeat (first [left; reflexivity | right])]
             |]
         end.
  simpl. split; [|reflexivity].
  intros Hin. exfalso. simpl in Hin. intuition congruence.
Qed.

Lemma apply_mask_rows {T} (mask : Z -> bool) (offset : Z) (n : nat) :
  forall i (out : FlatVector T),
    0 <= offset -> 0 <= i -> offset + i + Z.of_nat n <= 2 ^ 64 ->
    let out' := apply_mask mask offset i n out in
    cells out' = cells out /\
    forall j,
      row_valid out' j
      = if decide (i <= j < i + Z.of_nat n)
        then row_valid out j && negb (mask (offset + j))
        else row_valid out j.
Proof.
  induction n as [|n IH]; intros i out Ho Hi Hmax out'; subst out'.
  - simpl. split; [reflexivity|]. intros j. rewrite decide_False by lia.
    reflexivity.
  - cbn [apply_mask].
    rewrite (to_idx_t_small (offset + i))
      by (unfold is_idx_t, idx_t_modulus; lia).
    destruct (IH (i + 1) (if mask (offset + i) then SetNull out i else out)
                Ho ltac:(lia) ltac:(lia)) as [Hcells Hrows].
    split.
    + rewrite Hcells. destruct (mask (offset + i)); reflexivity.
    + intros j. rewrite Hrows.
      destruct (decide (j = i)) as [->|Hne].
      * rewrite decide_False by lia. rewrite decide_True by lia.
        destruct (mask (offset + i)); simpl.
        -- unfold store. rewrite decide_True by reflexivity.
           rewrite andb_false_r. reflexivity.
        -- rewrite andb_true_r. reflexivity.
      * assert (Hsame : row_valid (if mask (offset + i) then SetNull out i else out) j
                        = row_valid out j).
        { destruct (mask (offset + i)); [|reflexivity].
          simpl. unfold store. rewrite decide_False by exact Hne. reflexivity. }
        rewrite Hsame.
        destruct (decide (i + 1 <= j < i + 1 + Z.of_nat n)) as [Hin|Hout].
        -- rewrite decide_True by lia. reflexivity.
        -- rewrite decide_False by lia. reflexivity.
Qed.

(** X17: [ScanPandasNumeric] makes the output vector a view of the pandas
    column from row [offset] on without copying, and takes the nulls of the
    rows it scans from the pandas mask: among the first [count] rows a row
    stays valid only if it was valid and its mask cell is clear, so a row is
    never made valid again; rows from [count] on and, for a column without a
    mask, all rows keep their validity. *)
Theorem ScanPandasNumeric_reads_mask {T}
    (numpy_col : Z -> T) (mask : option (Z -> bool)) (count offset : Z)
    (out : FlatVector T) :
  0 <= offset -> 0 <= count -> offset + count <= 2 ^ 64 ->
  let out' := ScanPandasNumeric numpy_col mask count offset out in
  (forall i, cells out' i = numpy_col (offset + i)) /\
  (forall i,
     row_valid out' i
     = match mask with
       | Some m =>
           if decide (0 <= i < count)
           then row_valid out i && negb (m (offset + i))
           else row_valid out i
       | None => row_valid out i
       end) /\
  (forall i, row_valid out' i = true -> row_valid out i = true).
Proof.
  intros Ho Hc Hmax out'. subst out'. unfold ScanPandasNumeric.
  assert (Hrows : forall i,
             row_valid
               match mask with
               | Some m => apply_mask m offset 0 (Z.to_nat count)
                             (ScanPandasColumn numpy_col count offset out)
               | None => ScanPandasColumn numpy_col count offset out
               end i
             = match mask with
               | Some m =>
                   if decide (0 <= i < count)
                   then row_valid out i && negb (m (offset + i))
                   else row_valid out i
               | None => row_valid out i
               end).
  { intros i. destruct mask as [m|]; [|reflexivity].
    destruct (apply_mask_rows m offset (Z.to_nat count) 0
                (ScanPandasColumn numpy_col count offset out)
                Ho ltac:(lia) ltac:(lia)) as [_ Hr].
    rewrite Hr. simpl.
    destruct (decide (0 <= i < 0 + Z.of_nat (Z.to_nat count))) as [Hin|Hout].
    - rewrite decide_True by lia. reflexivity.
    - rewrite decide_False by lia. reflexivity. }
  split; [|split; [exact Hrows|]].
  - intros i. destruct mask as [m|]; [|reflexivity].
    destruct (apply_mask_rows m offset (Z.to_nat count) 0
                (ScanPandasColumn numpy_col count offset out)
                Ho ltac:(lia) ltac:(lia)) as [Hcells _].
    rewrite Hcells. reflexivity.
  - intros i. rewrite Hrows. destruct mask as [m|]; [|auto].
    case_decide; [|auto]. intros Hv. apply andb_true_iff in Hv. apply Hv.
Qed.

Section PandasScanFuncFacts.
Variable ROW_ID : Z.

Lemma STANDARD_VECTOR_SIZE_idx : to_idx_t STANDARD_VECTOR_SIZE = 1024.
Proof. reflexivity. Qed.

Lemma scanned_rows (fuel : nat) :
  forall state lines_read,
    0 <= start state <= end_ state -> end_ state < 2 ^ 64 ->
    0 <= lines_read -> lines_read + (end_ state - start state) < 2 ^ 64 ->
    end_ state - start state <= Z.of_nat fuel * STANDARD_VECTOR_SIZE ->
    let chunks := fst (fst (scanned ROW_ID fuel state lines_read)) in
    let state' := snd (fst (scanned ROW_ID fuel state lines_read)) in
    let lines_read' := snd (scanned ROW_ID fuel state lines_read) in
    rows_of (map (fun c => (fst c, fst c + out_cardinality (snd c))) chunks)
    = seqZ (start state) (end_ state - start state) /\
    Forall (fun c =>
              0 < out_cardinality (snd c) <= STANDARD_VECTOR_SIZE /\
              out_data (snd c)
              = map (fun col_idx =>
                       if decide (col_idx = ROW_ID)
                       then Sequence (fst c) (out_cardinality (snd c))
                       else ConvertVector col_idx (out_cardinality (snd c)) (fst c))
                    (column_ids state)) chunks /\
    Z.of_nat (length chunks)
    = (end_ state - start state + STANDARD_VECTOR_SIZE - 1) / STANDARD_VECTOR_SIZE /\
    start state' = end_ state /\ end_ state' = end_ state /\
    column_ids state' = column_ids state /\
    lines_read' = lines_read + (end_ state - start state).
Proof.
  change STANDARD_VECTOR_SIZE with 1024.
  induction fuel as [|fuel IH]; intros state lines_read Hse He Hl Hlmax Hfuel.
  - assert (Heq : end_ state = start state) by lia.
    simpl. rewrite Heq, Z.sub_diag. repeat split; try reflexivity; try lia.
    constructor.
  - cbn [scanned]. unfold PandasScanFunc. rewrite STANDARD_VECTOR_SIZE_idx.
    case_decide as Hdone.
    + assert (Heq : end_ state = start state) by lia.
      simpl. rewrite Heq, Z.sub_diag. repeat split; try reflexivity; try lia.
      constructor.
    + rewrite (to_idx_t_small (end_ state - start state))
        by (unfold is_idx_t, idx_t_modulus; lia).
      set (this_count := Z.min 1024 (end_ state - start state)).
      assert (Hc : 0 < this_count <= 1024 /\ this_count <= end_ state - start state /\
                   (this_count = 1024 \/ this_count = end_ state - start state))
        by (subst this_count; lia).
      rewrite (to_idx_t_small (start state + this_count))
        by (unfold is_idx_t, idx_t_modulus; lia).
      rewrite (to_idx_t_small (lines_read + this_count))
        by (unfold is_idx_t, idx_t_modulus; lia).
      set (state1 := {| start := start state + this_count; end_ := end_ state;
                        column_ids := column_ids state |}).
      specialize (IH state1 (lines_read + this_count)).
      destruct (scanned ROW_ID fuel state1 (lines_read + this_count))
        as [[chunks state'] lines_read'].
      cbn [fst snd] in *.
      destruct IH as (Hrows & Hall & Hlen & Hs & He' & Hcols & Hlr);
        [simpl; lia | simpl; lia | lia | simpl; lia | simpl; lia |].
      simpl in Hrows, Hlen, Hs, He', Hcols, Hlr, Hall.
      split; [|split; [|split; [|repeat split; try assumption; lia]]].
      * unfold rows_of in *. cbn [map concat fst snd out_cardinality].
        rewrite Hrows.
        replace (start state + this_count - start state) with this_count by lia.
        replace (end_ state - start state)
          with (this_count + (end_ state - (start state + this_count))) by lia.
        rewrite seqZ_app by lia. reflexivity.
      * constructor; [simpl; split; [lia | reflexivity] | exact Hall].
      * cbn [length]. rewrite Nat2Z.inj_succ, Hlen.
        destruct Hc as (Hpos & Hle & [Hcase|Hcase]); rewrite Hcase in *.
        -- replace (end_ state - start state + 1024 - 1)
             with ((end_ state - (start state + 1024) + 1024 - 1) + 1 * 1024)
             by lia.
           rewrite Z.div_add by lia. lia.
        -- replace (end_ state - (start state + (end_ state - start state)) + 1024 - 1)
             with 1023 by lia.
           change (1023 / 1024) with 0. change (Z.succ 0) with 1.
           apply (Z.div_unique _ _ 1 (end_ state - start state - 1)); lia.
Qed.

(** X15: calling [PandasScanFunc] again and again on an operator state scans
    its range [[start, end)] exactly once and in order: every chunk holds
    between 1 and [STANDARD_VECTOR_SIZE] rows, its columns are the row ids
    or the pandas rows of exactly the chunk's range, there are
    [ceil ((end - start) / STANDARD_VECTOR_SIZE)] chunks, and afterwards
    [start = end] and [lines_read] has grown by the size of the range. *)
Theorem PandasScanFunc_scans_range_once
    (fuel : nat) (state : PandasScanState) (lines_read : Z) :
  0 <= start state <= end_ state -> end_ state < 2 ^ 64 ->
  0 <= lines_read -> lines_read + (end_ state - start state) < 2 ^ 64 ->
  end_ state - start state <= Z.of_nat fuel * STANDARD_VECTOR_SIZE ->
  let chunks := fst (fst (scanned ROW_ID fuel state lines_read)) in
  let state' := snd (fst (scanned ROW_ID fuel state lines_read)) in
  let lines_read' := snd (scanned ROW_ID fuel state lines_read) in
  rows_of (map (fun c => (fst c, fst c + out_cardinality (snd c))) chunks)
  = seqZ (start state) (end_ state - start state) /\
  Forall (fun c =>
            0 < out_cardinality (snd c) <= STANDARD_VECTOR_SIZE /\
            out_data (snd c)
            = map (fun col_idx =>
                     if decide (col_idx = ROW_ID)
                     then Sequence (fst c) (out_cardinality (snd c))
                     else ConvertVector col_idx (out_cardinality (snd c)) (fst c))
                  (column_ids state)) chunks /\
  Z.of_nat (length chunks)
  = (end_ state - start state + STANDARD_VECTOR_SIZE - 1) / STANDARD_VECTOR_SIZE /\
  start state' = end_ state /\
  lines_read' = lines_read + (end_ state - start state) /\
  PandasScanFunc ROW_ID state' lines_read' = (state', lines_read', None).
Proof.
  intros Hse He Hl Hlmax Hfuel chunks state' lines_read'.
  destruct (scanned_rows fuel state lines_read Hse He Hl Hlmax Hfuel)
    as (Hrows & Hall & Hlen & Hs & He' & _ & Hlr).
  repeat split; try assumption.
  unfold PandasScanFunc. fold state'. rewrite decide_True; [reflexivity|].
  fold state' in Hs, He'. lia.
Qed.

End PandasScanFuncFacts.

End PandasScanFacts.

(** * Properties of the NumPy conversion *)

Section NumpyConversionFacts.
Import NumpyConversion.
Context {DUCKDB_T NUMPY_T : Type}.
Variable ConvertValue : DUCKDB_T -> NUMPY_T.
Variable NullValue : NUMPY_T.

Lemma store_eq {T} (a : Z -> T) i v : store a i v i = v.
Proof. unfold store. rewrite decide_True by reflexivity. reflexivity. Qed.

Lemma store_ne {T} (a : Z -> T) i v j : j <> i -> store a i v j = a j.
Proof. intros H. unfold store. rewrite decide_False by exact H. reflexivity. Qed.

Lemma convert_checked_cells valid target_offset idata (n : nat) :
  validity idata = Some valid ->
  forall i out mask,
    0 <= target_offset -> 0 <= i ->
    target_offset + i + Z.of_nat n <= 2 ^ 64 ->
    let result := convert_checked ConvertValue NullValue valid target_offset
                                  idata i n out mask in
    forall j,
      (target_offset + i <= j < target_offset + i + Z.of_nat n ->
       fst result j
       = converted_cell ConvertValue NullValue idata (j - target_offset) /\
       snd result j
       = negb (row_is_valid idata (sel idata (j - target_offset)))) /\
      (~ target_offset + i <= j < target_offset + i + Z.of_nat n ->
       fst result j = out j /\ snd result j = mask j).
Proof.
  intros Hv.
  induction n as [|n IH]; intros i out mask Ht Hi Hmax result j.
  - subst result. simpl. split; [lia | auto].
  - subst result. cbn [convert_checked].
    rewrite (to_idx_t_small (target_offset + i))
      by (unfold is_idx_t, idx_t_modulus; lia).
    assert (Hcell : forall out1 mask1,
               out1 = store out (target_offset + i)
                        (converted_cell ConvertValue NullValue idata i) ->
               mask1 = store mask (target_offset + i)
                         (negb (row_is_valid idata (sel idata i))) ->
               let r := convert_checked ConvertValue NullValue valid
                          target_offset idata (i + 1) n out1 mask1 in
               (target_offset + i <= j < target_offset + i + Z.of_nat (S n) ->
                fst r j
                = converted_cell ConvertValue NullValue idata (j - target_offset) /\
                snd r j
                = negb (row_is_valid idata (sel idata (j - target_offset)))) /\
               (~ target_offset + i <= j < target_offset + i + Z.of_nat (S n) ->
                fst r j = out j /\ snd r j = mask j)).
    { intros out1 mask1 -> -> r. subst r.
      destruct (IH (i + 1)
                  (store out (target_offset + i)
                     (converted_cell ConvertValue NullValue idata i))
                  (store mask (target_offset + i)
                     (negb (row_is_valid idata (sel idata i))))
                  Ht ltac:(lia) ltac:(lia) j) as [Hin Hout].
      split.
      - intros Hj. destruct (decide (j = target_offset + i)) as [->|Hne].
        + destruct Hout as [-> ->]; [lia|].
          rewrite !store_eq.
          replace (target_offset + i - target_offset) with i by lia.
          auto.
        + apply Hin. lia.
      - intros Hj. destruct Hout as [-> ->]; [lia|].
        rewrite !store_ne by lia. auto. }
    unfold converted_cell, row_is_valid in Hcell. rewrite Hv in Hcell.
    unfold converted_cell, row_is_valid. rewrite Hv.
    destruct (valid (sel idata i)) eqn:Hvalid;
      apply Hcell; reflexivity.
Qed.

Lemma convert_all_valid_cells target_offset idata (n : nat) :
  validity idata = None ->
  forall i out mask,
    0 <= target_offset -> 0 <= i ->
    target_offset + i + Z.of_nat n <= 2 ^ 64 ->
    let result := convert_all_valid ConvertValue target_offset idata i n out mask in
    forall j,
      (target_offset + i <= j < target_offset + i + Z.of_nat n ->
       fst result j
       = converted_cell ConvertValue NullValue idata (j - target_offset) /\
       snd result j = false) /\
      (~ target_offset + i <= j < target_offset + i + Z.of_nat n ->
       fst result j = out j /\ snd result j = mask j).
Proof.
  intros Hv.
  assert (Hcc : forall k, converted_cell ConvertValue NullValue idata k
                          = ConvertValue (data idata (sel idata k))).
  { intros k. unfold converted_cell, row_is_valid. rewrite Hv. reflexivity. }
  induction n as [|n IH]; intros i out mask Ht Hi Hmax result j.
  - subst result. simpl. split; [lia | auto].
  - subst result. cbn [convert_all_valid].
    rewrite (to_idx_t_small (target_offset + i))
      by (unfold is_idx_t, idx_t_modulus; lia).
    destruct (IH (i + 1)
                (store out (target_offset + i)
                   (ConvertValue (data idata (sel idata i))))
                (store mask (target_offset + i) false)
                Ht ltac:(lia) ltac:(lia) j) as [Hin Hout].
    split.
    + intros Hj. destruct (decide (j = target_offset + i)) as [->|Hne].
      * destruct Hout as [-> ->]; [lia|].
        rewrite !store_eq, Hcc.
        replace (target_offset + i - target_offset) with i by lia.
        auto.
      * apply Hin. lia.
    + intros Hj. destruct Hout as [-> ->]; [lia|].
      rewrite !store_ne by lia. auto.
Qed.

(** X16: [ConvertColumn] fills exactly the cells
    [[target_offset, target_offset + count)] of the target arrays and leaves
    every other cell alone: cell [target_offset + i] gets the converted value
    of the source cell selected for row [i], its mask is cleared, or, when
    that source cell is not valid, it gets the null value and its mask is
    set.  The result tells whether the input carries a validity mask; when
    it is false no mask was set. *)
Theorem ConvertColumn_fills_range
    (target_offset : Z) (target_data : Z -> NUMPY_T) (target_mask : Z -> bool)
    (idata : VectorData DUCKDB_T) (count : Z) :
  0 <= target_offset -> 0 <= count -> target_offset + count <= 2 ^ 64 ->
  let result := ConvertColumn ConvertValue NullValue target_offset target_data
                              target_mask idata count in
  let may_have_null := fst (fst result) in
  let out := snd (fst result) in
  let mask := snd result in
  (may_have_null = false <-> validity idata = None) /\
  (forall j,
     target_offset <= j < target_offset + count ->
     out j = converted_cell ConvertValue NullValue idata (j - target_offset) /\
     mask j = negb (row_is_valid idata (sel idata (j - target_offset))) /\
     (may_have_null = false -> mask j = false)) /\
  (forall j,
     ~ target_offset <= j < target_offset + count ->
     out j = target_data j /\ mask j = target_mask j).
Proof.
  intros Ht Hc Hmax result may_have_null out mask.
  subst may_have_null out mask result. unfold ConvertColumn.
  destruct (validity idata) as [valid|] eqn:Hv.
  - pose proof (convert_checked_cells valid target_offset idata
                  (Z.to_nat count) Hv 0 target_data target_mask Ht
                  ltac:(lia) ltac:(lia)) as H.
    simpl in H.
    destruct (convert_checked ConvertValue NullValue valid target_offset idata 0
                (Z.to_nat count) target_data target_mask) as [out mask].
    simpl in *. split; [split; discriminate|]. split.
    + intros j Hj. destruct (H j) as [Hin _].
      destruct Hin as [-> ->]; [lia|]. repeat split. discriminate.
    + intros j Hj. destruct (H j) as [_ Hout]. apply Hout. lia.
  - pose proof (convert_all_valid_cells target_offset idata
                  (Z.to_nat count) Hv 0 target_data target_mask Ht
                  ltac:(lia) ltac:(lia)) as H.
    simpl in H.
    destruct (convert_all_valid ConvertValue target_offset idata 0
                (Z.to_nat count) target_data target_mask) as [out mask].
    simpl in *. split; [split; reflexivity|]. split.
    + intros j Hj. destruct (H j) as [Hin _].
      destruct Hin as [-> ->]; [lia|].
      unfold row_is_valid. rewrite Hv. repeat split.
    + intros j Hj. destruct (H j) as [_ Hout]. apply Hout. lia.
Qed.

End NumpyConversionFacts.

(** * The further properties at sample inputs *)

Section MoreInstances.
Import Sample MoreSamples CommitState.

Lemma delete_logged_then_committed_witness :
  CommitEntry true (DELETE_TUPLE (delete_from table_A)) (committer, empty_world)
  = (Returned tt,
     (switched_state info_A committer,
      extend [LogWriteSetTable "main" "a";
              LogWriteDelete {| chunk_types := [LOGICAL_ROW_TYPE];
                                chunk_data := [[2051; 2053]];
                                chunk_count := 2 |};
              VersionCommitDelete 21%positive 100 [3; 5] 2] empty_world)).
Proof.
  assert (Hrows : Forall (fun r => 0 <= DeleteInfo.base_row (delete_from table_A) + r
                                   < 2 ^ 63)
                    (take (Z.to_nat (DeleteInfo.count (delete_from table_A)))
                          (DeleteInfo.rows (delete_from table_A))))
    by (repeat constructor; simpl; lia).
  pose proof (delete_logged_then_committed (delete_from table_A) committer
                empty_world 1%positive eq_refl eq_refl
                ltac:(unfold STANDARD_VECTOR_SIZE; simpl; lia)
                ltac:(simpl; lia) Hrows) as [E _].
  exact E.
Defined.

Lemma update_commit_then_revert_restores_version_witness :
  let entry := UPDATE_TUPLE (update_of info_A) in
  let detached := make 100 None in
  let w1 := snd (snd (CommitEntry false entry (detached, updating_world))) in
  version_number w1 !! 31%positive = Some 100 /\
  version_number
    (snd (snd (RevertCommit entry (make transaction_id None, w1))))
  = version_number updating_world.
Proof.
  intros entry detached w1. subst w1 entry.
  destruct (CommitEntry false (UPDATE_TUPLE (update_of info_A))
              (detached, updating_world)) as [o [c1 w1]] eqn:E.
  assert (o = Returned tt) as -> by (vm_compute in E; congruence).
  pose proof (update_commit_then_revert_restores_version false (update_of info_A)
                detached c1 transaction_id None updating_world w1 E)
    as (_ & E1 & E2 & _ & _ & _ & _ & Hsame & _).
  cbn [snd]. split.
  - exact E1.
  - rewrite E2. cbn [snd]. apply Hsame. reflexivity.
Defined.

Lemma temporary_entry_commits_without_log_witness :
  CommitEntry true (DELETE_TUPLE (delete_from table_T)) (committer, empty_world)
  = (Returned tt,
     (committer,
      extend [VersionCommitDelete 21%positive 100 [3; 5] 2] empty_world)).
Proof.
  rewrite (temporary_entry_commits_without_log
             (DELETE_TUPLE (delete_from table_T)) (committer, empty_world) eq_refl).
  reflexivity.
Defined.


Lemma marker_written_iff_table_changes_witness :
  let result := CommitEntry true (DELETE_TUPLE (delete_from table_B))
                  (committer, empty_world) in
  current_table_info (fst (snd result)) = Some 2%positive /\
  length (switch_markers (trace (snd (snd result)))) = 1%nat.
Proof.
  intros result. subst result.
  destruct (CommitEntry true (DELETE_TUPLE (delete_from table_B))
              (committer, empty_world)) as [o [this' w']] eqn:E.
  assert (o = Returned tt) as -> by (vm_compute in E; congruence).
  destruct (marker_written_iff_table_changes
              (DELETE_TUPLE (delete_from table_B)) committer this' empty_world
              w' 1%positive eq_refl E)
    as (Hcur & evs & Htr & Hlen & Hiff).
  simpl in Hcur, Htr |- *. split; [exact Hcur|].
  rewrite Htr.
  destruct (switch_markers evs) as [|m [|m' ms]] eqn:Hm.
  - rewrite (proj1 Hiff eq_refl) in Hcur. discriminate.
  - reflexivity.
  - simpl in Hlen. lia.
Defined.

Lemma Append_then_RevertAppend_witness :
  let this' := snd (TransientSegment.Append take_all transient [1; 2; 3] 0 3) in
  TransientSegment.count this' = 1003 /\
  TransientSegment.count (TransientSegment.RevertAppend this' 3048) = 1000 /\
  TransientSegment.stats_max
    (TransientSegment.stats (TransientSegment.RevertAppend this' 3048)) = 1000.
Proof.
  intros this'.
  destruct (Append_then_RevertAppend take_all transient [1; 2; 3] 0 3)
    as (_ & Hc & Hr & _ & _ & Hstats).
  - unfold is_idx_t, idx_t_modulus. simpl. lia.
  - unfold is_idx_t, idx_t_modulus. simpl. lia.
  - split; [exact Hc|]. split; [exact Hr|].
    change 3048 with (to_idx_t (TransientSegment.start transient
                                + TransientSegment.count transient)).
    subst this'. rewrite Hstats. reflexivity.
Defined.

Lemma FetchRow_offset_valid_iff_witness :
  0 <= TransientSegment.FetchRow_offset transient 2050 < 1000 /\
  ~ 0 <= TransientSegment.FetchRow_offset transient (-1) < 1000.
Proof.
  assert (Hs : is_idx_t (TransientSegment.start transient))
    by (unfold is_idx_t, idx_t_modulus; simpl; lia).
  assert (Hr : forall z, - 2 ^ 63 <= z < 2 ^ 63 -> is_row_t z)
    by (intros z H; exact H).
  split.
  - apply (FetchRow_offset_valid_iff transient 2050 Hs (Hr 2050 ltac:(simpl; lia))
             ltac:(simpl; lia) ltac:(simpl; lia)).
    simpl. lia.
  - intros H.
    apply (FetchRow_offset_valid_iff transient (-1) Hs (Hr (-1) ltac:(simpl; lia))
             ltac:(simpl; lia) ltac:(simpl; lia)) in H.
    simpl in H. lia.
Defined.

Lemma PandasScanParallelStateNext_hands_out_witness :
  PandasScan.PandasScanParallelStateNext 100000 scan_state 51200
  = (true,
     {| PandasScan.start := 51200; PandasScan.end_ := 100000;
        PandasScan.column_ids := [7; 0] |},
     100000).
Proof.
  pose proof (PandasScanParallelStateNext_hands_out 100000 scan_state 51200
                ltac:(lia) ltac:(vm_compute; discriminate))
    as (_ & _ & Hok).
  destruct (PandasScan.PandasScanParallelStateNext 100000 scan_state 51200)
    as [[ok state'] position'] eqn:E.
  simpl in Hok. vm_compute in E. injection E as <- <- <-.
  destruct (Hok eq_refl) as (_ & _ & _ & _ & _ & _). reflexivity.
Defined.

Lemma handed_out_partitions_rows_witness :
  PandasScan.handed_out 3 120000 scan_state 0
  = [(0, 51200); (51200, 102400); (102400, 120000)] /\
  PandasScan.rows_of (PandasScan.handed_out 3 120000 scan_state 0)
  = seqZ 0 120000.
Proof.
  split; [reflexivity|].
  apply (handed_out_partitions_rows 120000 scan_state 3);
    [lia | vm_compute; discriminate | vm_compute; discriminate].
Defined.

Lemma PandasProgress_percentage_witness :
  PandasScan.PandasProgress 200 50 = 25 /\
  PandasScan.PandasProgress 0 0 = 100.
Proof.
  destruct (PandasProgress_percentage 200 50) as (H0 & E & _);
    [lia | lia | vm_compute; reflexivity |].
  split; [rewrite E; reflexivity | reflexivity].
Defined.

Lemma PandasScanFunc_scans_range_once_witness :
  let chunks := fst (fst (PandasScan.scanned 7 3 scan_state 0)) in
  map (fun c => (fst c, PandasScan.out_cardinality (snd c))) chunks
  = [(0, 1024); (1024, 1024); (2048, 452)] /\
  PandasScan.rows_of
    (map (fun c => (fst c, fst c + PandasScan.out_cardinality (snd c))) chunks)
  = seqZ 0 2500 /\
  snd (PandasScan.scanned 7 3 scan_state 0) = 2500.
Proof.
  intros chunks. split; [reflexivity|].
  destruct (PandasScanFunc_scans_range_once 7 3 scan_state 0
              ltac:(simpl; lia) ltac:(vm_compute; reflexivity) ltac:(lia)
              ltac:(vm_compute; reflexivity) ltac:(vm_compute; discriminate))
    as (Hrows & _ & _ & _ & Hlines & _).
  split; [exact Hrows | exact Hlines].
Defined.

Lemma ConvertColumn_fills_range_witness :
  let result := NumpyConversion.ConvertColumn (fun v => v + 1) 0 5
                  (fun _ => 77) (fun _ => false) three_rows 3 in
  fst (fst result) = true /\
  map (snd (fst result)) [4; 5; 6; 7; 8] = [77; 1; 0; 21; 77] /\
  map (snd result) [4; 5; 6; 7; 8] = [false; false; true; false; false].
Proof.
  intros result.
  destruct (ConvertColumn_fills_range (fun v => v + 1) 0 5 (fun _ => 77)
              (fun _ => false) three_rows 3
              ltac:(lia) ltac:(lia) ltac:(vm_compute; discriminate))
    as (_ & Hin & Hout).
  fold result in Hin, Hout.
  split; [reflexivity|].
  destruct (Hout 4 ltac:(lia)) as [Ho4 Hm4].
  destruct (Hout 8 ltac:(lia)) as [Ho8 Hm8].
  destruct (Hin 5 ltac:(lia)) as (Ho5 & Hm5 & _).
  destruct (Hin 6 ltac:(lia)) as (Ho6 & Hm6 & _).
  destruct (Hin 7 ltac:(lia)) as (Ho7 & Hm7 & _).
  cbn [map]. rewrite Ho4, Ho5, Ho6, Ho7, Ho8, Hm4, Hm5, Hm6, Hm7, Hm8.
  split; reflexivity.
Defined.

Lemma ScanPandasNumeric_reads_mask_witness :
  let out := PandasScan.ScanPandasNumeric (fun i => 100 + i)
               (Some (fun i => i =? 11)) 3 10
               {| PandasScan.cells := fun _ => 0;
                  PandasScan.row_valid := fun _ => true |} in
  map (PandasScan.cells out) [0; 1; 2] = [110; 111; 112] /\
  map (PandasScan.row_valid out) [0; 1; 2; 3] = [true; false; true; true].
Proof.
  intros out.
  destruct (ScanPandasNumeric_reads_mask (fun i => 100 + i)
              (Some (fun i => i =? 11)) 3 10
              {| PandasScan.cells := fun _ => 0;
                 PandasScan.row_valid := fun _ => true |}
              ltac:(lia) ltac:(lia) ltac:(vm_compute; discriminate))
    as (Hcells & Hrows & _).
  fold out in Hcells, Hrows. cbn [map].
  rewrite !Hcells, !Hrows. split; reflexivity.
Defined.

End MoreInstances.
